(** * Error learning system: pattern detection, similarity, synthesis, export

    A shallow embedding of [workflows/error-learning.js] and the properties
    its design document states about it.

    Conventions of the embedding.
    - A JavaScript string is a [string]: one [ascii] per code unit.  Code
      units above 255 are not representable, so the model speaks about
      ASCII and Latin-1 text.
    - Methods that only read [this.registry] take the registry as their first
      argument; methods that mutate it, write files or may throw live in the
      monad [M] (state plus exceptions) over [World].
    - [console.log] output is not part of the state: no property below
      observes it.
    - File writes succeed, and the registry document reads back as it was
      written. *)

From Stdlib Require Import String Ascii List Bool Arith ZArith QArith Qminmax Lia.
Import ListNotations.

Local Open Scope list_scope.
Local Open Scope string_scope.
Local Open Scope nat_scope.

(* ===================================================================== *)
(** ** JavaScript string primitives *)
(* ===================================================================== *)

Module JsString.

(** The double quote character, spliced into templates that contain it. *)
Definition dq : string := String (ascii_of_nat 34) EmptyString.

(** Line feed, as produced by the escape [\n]. *)
Definition nl : string := String (ascii_of_nat 10) EmptyString.

Definition code (c : ascii) : nat := nat_of_ascii c.

Definition between (lo hi n : nat) : bool := (lo <=? n) && (n <=? hi).

(** [\w] is [A-Za-z0-9_], with or without the unicode flag. *)
Definition isWordChar (c : ascii) : bool :=
  let n := code c in
  between 48 57 n || between 65 90 n || (n =? 95) || between 97 122 n.

(** Line terminators excluded by [.]: LF and CR (U+2028 and U+2029 are
    not representable). *)
Definition isLineTerminator (c : ascii) : bool :=
  let n := code c in (n =? 10) || (n =? 13).

(** [toLowerCase] on one code unit: A-Z, and the Latin-1 capitals
    U+00C0-U+00DE without the multiplication sign U+00D7. *)
Definition lowerChar (c : ascii) : ascii :=
  let n := code c in
  if between 65 90 n then ascii_of_nat (n + 32)
  else if between 192 222 n && negb (n =? 215) then ascii_of_nat (n + 32)
  else c.

Fixpoint toLowerCase (s : string) : string :=
  match s with
  | EmptyString => EmptyString
  | String c s' => String (lowerChar c) (toLowerCase s')
  end.

(** [toUpperCase] of a one-character string.  The sharp s becomes two
    letters; the upper cases of U+00B5 and U+00FF lie outside Latin-1 and
    are left as they are. *)
Definition upperChar (c : ascii) : string :=
  let n := code c in
  if between 97 122 n then String (ascii_of_nat (n - 32)) EmptyString
  else if n =? 223 then "SS"
  else if between 224 254 n && negb (n =? 247) then String (ascii_of_nat (n - 32)) EmptyString
  else String c EmptyString.

(** [s.charAt(0).toUpperCase() + s.slice(1)] *)
Definition capitalize (s : string) : string :=
  match s with
  | EmptyString => EmptyString
  | String c s' => upperChar c ++ s'
  end.

(** [s.split(/\W+/)]: the fields between maximal runs of non-word
    characters; a leading or trailing run leaves an empty field, and the
    empty string splits into one empty field. *)
Fixpoint splitW (s : string) (cur : string) (insep : bool) : list string :=
  match s with
  | EmptyString => [cur]
  | String c s' =>
      if isWordChar c then splitW s' (cur ++ String c EmptyString) false
      else if insep then splitW s' EmptyString true
      else cur :: splitW s' EmptyString true
  end.

Definition split_nonword (s : string) : list string := splitW s EmptyString false.

Fixpoint startsWith (s p : string) : bool :=
  match p, s with
  | EmptyString, _ => true
  | String _ _, EmptyString => false
  | String a p', String b s' => Ascii.eqb a b && startsWith s' p'
  end.

(** [s.includes(p)]: [p] occurs in [s] as a contiguous substring. *)
Fixpoint includes (s p : string) : bool :=
  startsWith s p ||
  match s with
  | EmptyString => false
  | String _ s' => includes s' p
  end.

(** [arr.includes(w)] on an array of strings. *)
Definition arr_includes (arr : list string) (w : string) : bool :=
  existsb (String.eqb w) arr.

(** [arr.join(sep)] *)
Fixpoint join (sep : string) (arr : list string) : string :=
  match arr with
  | [] => EmptyString
  | [x] => x
  | x :: rest => x ++ sep ++ join sep rest
  end.

(** A value interpolated in a template literal: [undefined] prints as the
    nine letters. *)
Definition interp (v : option string) : string :=
  match v with
  | Some s => s
  | None => "undefined"
  end.

End JsString.
Import JsString.

(* ===================================================================== *)
(** ** Regular expressions of the taxonomy *)
(* ===================================================================== *)

Module Regex.

(** The fragment of the regular-expression language that the taxonomy
    uses: literals, [.], [\w], sequence, alternation, greedy repetition
    and numbered capture groups. *)
Inductive regex : Type :=
| Eps
| Chr (c : ascii)
| Dot
| WordCls
| Seq (r1 r2 : regex)
| Alt (r1 r2 : regex)
| Star (r : regex)
| Group (i : nat) (r : regex).

Definition Plus (r : regex) : regex := Seq r (Star r).

Fixpoint Lit (s : string) : regex :=
  match s with
  | EmptyString => Eps
  | String c s' => Seq (Chr c) (Lit s')
  end.

Fixpoint ngroups (r : regex) : nat :=
  match r with
  | Seq r1 r2 | Alt r1 r2 => ngroups r1 + ngroups r2
  | Star r' => ngroups r'
  | Group _ r' => S (ngroups r')
  | _ => 0
  end.

(** A capture is [undefined] until its group takes part in the match. *)
Definition captures := list (option string).

Fixpoint set_capture (i : nat) (v : string) (cs : captures) : captures :=
  match cs, i with
  | [], _ => []
  | _ :: cs', O => Some v :: cs'
  | c :: cs', S i' => c :: set_capture i' v cs'
  end.

(** The text consumed between input [s] and its suffix [s']. *)
Definition consumed (s s' : list ascii) : string :=
  string_of_list_ascii (firstn (length s - length s') s).

Section Matcher.
Context {R : Type}.

Definition cont := list ascii -> captures -> option R.

(** Greedy repetition of [step]: one more iteration is tried first, and
    an iteration that consumes nothing is rejected; when no iteration leads
    to a match the continuation runs on what has been consumed so far.  The
    bound on the number of iterations is the length of the input, which is
    never reached before the input is used up ([star_loop_fuel] below). *)
Fixpoint star_loop (step : list ascii -> captures -> cont -> option R) (k : cont)
         (fuel : nat) (s : list ascii) (cs : captures) : option R :=
  match fuel with
  | O => k s cs
  | S fuel' =>
      match step s cs
                 (fun s' cs' =>
                    if length s' <? length s then star_loop step k fuel' s' cs'
                    else None)
      with
      | Some x => Some x
      | None => k s cs
      end
  end.

(** Backtracking matcher in continuation-passing style: alternatives
    are tried left to right, repetition is greedy. *)
Fixpoint rmatch (r : regex) (s : list ascii) (cs : captures) (k : cont) : option R :=
  match r with
  | Eps => k s cs
  | Chr c =>
      match s with
      | x :: s' => if Ascii.eqb x c then k s' cs else None
      | [] => None
      end
  | Dot =>
      match s with
      | x :: s' => if isLineTerminator x then None else k s' cs
      | [] => None
      end
  | WordCls =>
      match s with
      | x :: s' => if isWordChar x then k s' cs else None
      | [] => None
      end
  | Seq r1 r2 => rmatch r1 s cs (fun s' cs' => rmatch r2 s' cs' k)
  | Alt r1 r2 =>
      match rmatch r1 s cs k with
      | Some x => Some x
      | None => rmatch r2 s cs k
      end
  | Star r' => star_loop (rmatch r') k (length s) s cs
  | Group i r' =>
      rmatch r' s cs (fun s' cs' => k s' (set_capture i (consumed s s') cs'))
  end.
End Matcher.

(** The result of [RegExp.prototype.exec]: the matched text and the
    captures, [match[0]] and [match.slice(1)]. *)
Definition match_at (r : regex) (s : list ascii) : option (string * captures) :=
  rmatch r s (repeat None (ngroups r)) (fun s' cs => Some (consumed s s', cs)).

(** Start positions are tried from left to right, the end of input
    included. *)
Fixpoint exec_from (r : regex) (s : list ascii) : option (string * captures) :=
  match match_at r s with
  | Some m => Some m
  | None =>
      match s with
      | [] => None
      | _ :: s' => exec_from r s'
      end
  end.

(** [str.match(regex)] for a regex without the global flag. *)
Definition str_match (str : string) (r : regex) : option (string * captures) :=
  exec_from r (list_ascii_of_string str).

End Regex.
Import Regex.

(* ===================================================================== *)
(** ** Category taxonomy *)
(* ===================================================================== *)

Record Pattern := mkPattern {
  p_regex : regex;
  p_extract : string
}.

Record CategoryConfig := mkCategory {
  c_description : string;
  c_testType : string;
  c_patterns : list Pattern
}.

(** [(\w+)] as the group with index [i]. *)
Definition word_group (i : nat) : regex := Group i (Plus WordCls).

(** The table [ERROR_CATEGORIES], its own properties in source order. *)
Definition ERROR_CATEGORIES : list (string * CategoryConfig) :=
  [ ("js-runtime",
     mkCategory "JavaScript runtime errors (undefined variables, type errors)" "playwright"
       [ mkPattern (Seq (word_group 0) (Lit " is not defined")) "variableName";
         mkPattern (Seq (Lit "Cannot read propert")
                     (Seq (Group 0 (Alt (Lit "y") (Lit "ies")))
                       (Seq (Lit " of ") (Group 1 (Alt (Lit "null") (Lit "undefined"))))))
                   "nullAccess";
         mkPattern (Seq (Lit "Cannot access '")
                     (Seq (word_group 0) (Lit "' before initialization")))
                   "temporalDeadZone";
         mkPattern (Seq (word_group 0) (Lit " is not a function")) "notFunction" ]);
    ("js-syntax",
     mkCategory "JavaScript syntax errors" "eslint"
       [ mkPattern (Lit "Unexpected token") "syntaxError";
         mkPattern (Lit "Unterminated string") "unterminatedString" ]);
    ("python-import",
     mkCategory "Python import errors" "python"
       [ mkPattern (Seq (Lit "ModuleNotFoundError: No module named '")
                     (Seq (word_group 0) (Lit "'")))
                   "moduleName";
         mkPattern (Seq (Lit "ImportError: cannot import name '")
                     (Seq (word_group 0) (Lit "'")))
                   "importName" ]);
    ("python-runtime",
     mkCategory "Python runtime errors" "python"
       [ mkPattern (Seq (Lit "NameError: name '")
                     (Seq (word_group 0) (Lit "' is not defined")))
                   "variableName";
         mkPattern (Seq (Lit "AttributeError: '")
                     (Seq (word_group 0)
                       (Seq (Lit "' object has no attribute '")
                         (Seq (word_group 1) (Lit "'")))))
                   "attributeError";
         mkPattern (Seq (Lit "TypeError: ") (word_group 0)) "typeError" ]);
    ("qt-crash",
     mkCategory "Qt/PyQt crashes (SIGSEGV, accessibility)" "manual"
       [ mkPattern (Seq (Lit "SIGSEGV") (Seq (Star Dot) (Lit "QAccessible")))
                   "accessibilityCrash";
         mkPattern (Lit "Segmentation fault") "segfault" ]);
    ("database",
     mkCategory "Database errors" "python"
       [ mkPattern (Lit "sqlite3.OperationalError") "sqliteError";
         mkPattern (Seq (Lit "no such table: ") (word_group 0)) "missingTable" ]) ].

(** Property names every object literal inherits from [Object.prototype];
    each of them reads as a function or an object, hence as a truthy value
    that has no [patterns] property. *)
Definition OBJECT_PROTOTYPE_KEYS : list string :=
  [ "constructor"; "__defineGetter__"; "__defineSetter__"; "hasOwnProperty";
    "__lookupGetter__"; "__lookupSetter__"; "isPrototypeOf";
    "propertyIsEnumerable"; "toString"; "valueOf"; "__proto__";
    "toLocaleString" ].

(** What the property read [ERROR_CATEGORIES[category]] evaluates to. *)
Inductive Lookup : Type :=
| OwnConfig (c : CategoryConfig)
| Inherited
| Undefined.

Fixpoint own_property (tbl : list (string * CategoryConfig)) (key : string)
  : option CategoryConfig :=
  match tbl with
  | [] => None
  | (k, c) :: tbl' => if String.eqb k key then Some c else own_property tbl' key
  end.

Definition get_category (category : string) : Lookup :=
  match own_property ERROR_CATEGORIES category with
  | Some c => OwnConfig c
  | None => if arr_includes OBJECT_PROTOTYPE_KEYS category then Inherited else Undefined
  end.

(* ===================================================================== *)
(** ** Data model *)
(* ===================================================================== *)

Record DetectedPattern := mkDetected {
  dp_type : string;
  dp_match : string;
  dp_captures : captures;
  dp_testType : string
}.

Definition Context := list (string * string).

Record ErrorRecord := mkError {
  e_id : string;
  e_message : string;
  e_category : string;
  e_context : Context;
  e_reportedAt : string;
  e_status : string;
  e_testGenerated : bool;
  e_detectedPattern : option DetectedPattern;
  e_similarErrors : option (list string)
}.

Record GeneratedTest := mkTest {
  t_errorId : string;
  t_testName : string;
  t_testCode : string;
  t_testType : string;
  t_generatedAt : string
}.

Record LintPattern := mkLint {
  l_errorId : string;
  l_type : string;
  l_rule : string;
  l_generatedAt : string
}.

Record Registry := mkRegistry {
  r_projectName : string;
  r_version : string;
  r_createdAt : string;
  r_updatedAt : option string;
  r_errors : list ErrorRecord;
  r_generatedTests : list GeneratedTest;
  r_patterns : list LintPattern
}.

(** The registry document on disk: absent, not parseable as JSON, or a
    serialised registry (serialisation is taken to round-trip). *)
Inductive Persisted : Type :=
| Absent
| Corrupt
| Doc (r : Registry).

(** The state a method call runs in: the in-memory registry of the
    [ErrorLearningSystem] instance, its registry document, the text files
    by path, and the readings of the clock and of [Math.random], held fixed
    over one call. *)
Record World := mkWorld {
  registry : Registry;
  disk : Persisted;
  files : string -> option string;
  now_ms : string;
  now_iso : string;
  random36 : string
}.

Definition set_registry (r : Registry) (w : World) : World :=
  mkWorld r (disk w) (files w) (now_ms w) (now_iso w) (random36 w).

Definition set_disk (d : Persisted) (w : World) : World :=
  mkWorld (registry w) d (files w) (now_ms w) (now_iso w) (random36 w).

Definition set_files (f : string -> option string) (w : World) : World :=
  mkWorld (registry w) (disk w) f (now_ms w) (now_iso w) (random36 w).

(** The world at a later reading of the clock and of the random source. *)
Definition with_clock (ms iso rnd : string) (w : World) : World :=
  mkWorld (registry w) (disk w) (files w) ms iso rnd.

Definition set_errors (es : list ErrorRecord) (r : Registry) : Registry :=
  mkRegistry (r_projectName r) (r_version r) (r_createdAt r) (r_updatedAt r)
             es (r_generatedTests r) (r_patterns r).

Definition set_generatedTests (ts : list GeneratedTest) (r : Registry) : Registry :=
  mkRegistry (r_projectName r) (r_version r) (r_createdAt r) (r_updatedAt r)
             (r_errors r) ts (r_patterns r).

Definition set_patterns (ps : list LintPattern) (r : Registry) : Registry :=
  mkRegistry (r_projectName r) (r_version r) (r_createdAt r) (r_updatedAt r)
             (r_errors r) (r_generatedTests r) ps.

Definition set_updatedAt (t : string) (r : Registry) : Registry :=
  mkRegistry (r_projectName r) (r_version r) (r_createdAt r) (Some t)
             (r_errors r) (r_generatedTests r) (r_patterns r).

(* ===================================================================== *)
(** ** State and exceptions *)
(* ===================================================================== *)

Inductive Exn : Type :=
| TypeError (msg : string).

Inductive Completion (A : Type) : Type :=
| Normal (a : A)
| Throw (e : Exn).
Arguments Normal {A} a.
Arguments Throw {A} e.

Definition M (A : Type) : Type := World -> Completion A * World.

Definition ret {A} (a : A) : M A := fun w => (Normal a, w).

Definition throw {A} (e : Exn) : M A := fun w => (Throw e, w).

Definition bind {A B} (m : M A) (f : A -> M B) : M B :=
  fun w =>
    match m w with
    | (Normal a, w') => f a w'
    | (Throw e, w') => (Throw e, w')
    end.

Definition gets {A} (f : World -> A) : M A := fun w => (Normal (f w), w).

Definition modify (f : World -> World) : M unit := fun w => (Normal tt, f w).

Definition lift {A} (c : Completion A) : M A := fun w => (c, w).

Declare Scope js_scope.
Delimit Scope js_scope with js.
Notation "x <- m ;; k" := (bind m (fun x => k))
  (at level 61, m at next level, right associativity) : js_scope.
Notation "m ;;; k" := (bind m (fun _ => k))
  (at level 61, right associativity) : js_scope.
Infix "===" := String.eqb (at level 70, no associativity) : js_scope.
Local Open Scope js_scope.

(* ===================================================================== *)
(** ** Registry store *)
(* ===================================================================== *)

Definition fresh_registry (projectName createdAt : string) : Registry :=
  mkRegistry projectName "1.0" createdAt None [] [] [].

(** [loadRegistry]: the parsed document when there is one, else a
    registry initialised empty. *)
Definition loadRegistry (projectName : string) : M Registry :=
  d <- gets disk ;;
  match d with
  | Doc r => ret r
  | Corrupt | Absent =>
      t <- gets now_iso ;;
      ret (fresh_registry projectName t)
  end.

(** The constructor: [this.registry = this.loadRegistry()]. *)
Definition construct (projectName : string) : M unit :=
  r <- loadRegistry projectName ;;
  modify (set_registry r).

Definition saveRegistry : M unit :=
  t <- gets now_iso ;;
  modify (fun w => set_registry (set_updatedAt t (registry w)) w) ;;;
  modify (fun w => set_disk (Doc (registry w)) w).

(* ===================================================================== *)
(** ** Pattern detector *)
(* ===================================================================== *)

(** The loop over [categoryConfig.patterns]: the first rule that matches. *)
Fixpoint first_match (errorMessage testType : string) (patterns : list Pattern)
  : option DetectedPattern :=
  match patterns with
  | [] => None
  | pattern :: rest =>
      match str_match errorMessage (p_regex pattern) with
      | Some (m0, caps) => Some (mkDetected (p_extract pattern) m0 caps testType)
      | None => first_match errorMessage testType rest
      end
  end.

Definition detectPattern (errorMessage category : string)
  : Completion (option DetectedPattern) :=
  match get_category category with
  | Undefined => Normal None
  | Inherited => Throw (TypeError "categoryConfig.patterns is not iterable")
  | OwnConfig categoryConfig =>
      Normal (first_match errorMessage (c_testType categoryConfig)
                          (c_patterns categoryConfig))
  end.

(* ===================================================================== *)
(** ** Similarity matcher *)
(* ===================================================================== *)

(** [text.toLowerCase().split(/\W+/).filter(w => w.length > 3)] *)
Definition significant_words (text : string) : list string :=
  filter (fun w => 3 <? String.length w) (split_nonword (toLowerCase text)).

(** [Math.min(3, words.length * 0.5)], over the rationals: halves of array
    lengths are exact in double precision. *)
Definition threshold (total : nat) : Q :=
  Qmin (3 # 1) (inject_Z (Z.of_nat total) * (1 # 2)).

(** [commonWords.length >= Math.min(3, words.length * 0.5)] *)
Definition meets_threshold (common total : nat) : bool :=
  Qle_bool (threshold total) (inject_Z (Z.of_nat common)).

Definition findSimilarErrors (this : Registry) (errorMessage : string)
  : list ErrorRecord :=
  let words := significant_words errorMessage in
  filter (fun e =>
            let existingWords := significant_words (e_message e) in
            let commonWords := filter (fun w => arr_includes existingWords w) words in
            meets_threshold (length commonWords) (length words))
         (r_errors this).

(* ===================================================================== *)
(** ** Test synthesizer *)
(* ===================================================================== *)

(** [captures[0]] *)
Definition first_capture (cs : captures) : option string :=
  match cs with
  | Some s :: _ => Some s
  | _ => None
  end.

(** The [switch (type)] of [generatePlaywrightTest]: the test name and the
    check code, [None] for the default branch.  [varName.charAt] throws
    when the first capture is undefined. *)
Definition playwright_case (type : string) (captures : captures)
  : Completion (option (string * string)) :=
  if type === "variableName" then
    match first_capture captures with
    | None => Throw (TypeError "Cannot read properties of undefined (reading 'charAt')")
    | Some varName =>
        let getterName := "get" ++ capitalize varName in
        let testName := "variable_" ++ varName ++ "_accessible" in
        let checkCode := ("
        // Check that " ++ varName ++ " is accessible (either as variable or via getter function)
        // Original error: " ++ dq ++ varName ++ " is not defined" ++ dq ++ "
        const isAccessible = await page.evaluate(() => {
            try {
                // First check if getter function exists (e.g., getInheritorsList for inheritorsList)
                if (typeof window." ++ getterName ++ " === 'function') {
                    window." ++ getterName ++ "();
                    return true;
                }
                // Then check if variable is directly accessible
                if (typeof " ++ varName ++ " !== 'undefined') {
                    return true;
                }
                // Check window scope
                if (typeof window." ++ varName ++ " !== 'undefined') {
                    return true;
                }
                return false;
            } catch (e) {
                console.error('Access check failed:', e.message);
                return false;
            }
        });
        expect(isAccessible, '" ++ varName ++ " should be accessible (directly or via " ++ getterName ++ ")').toBe(true);") in
        Normal (Some (testName, checkCode))
    end
  else if type === "temporalDeadZone" then
    let tdzVarName := interp (first_capture captures) in
    let testName := "variable_" ++ tdzVarName ++ "_no_tdz" in
    let checkCode := ("
        // Check that " ++ tdzVarName ++ " doesn't cause TDZ error when accessed via functions
        // Original error: " ++ dq ++ "Cannot access '" ++ tdzVarName ++ "' before initialization" ++ dq ++ "
        // This error typically occurs when let/const variables are accessed before declaration
        const noTdzError = await page.evaluate(() => {
            const errors = [];
            // Listen for any page errors
            window.onerror = (msg) => errors.push(msg);

            // Try calling functions that might use " ++ tdzVarName ++ "
            // The fix is usually to wrap access in try-catch or check initialization
            try {
                // If there are check/calculate functions, call them
                const fnNames = Object.keys(window).filter(k =>
                    typeof window[k] === 'function' &&
                    (k.includes('check') || k.includes('calculate') || k.includes('Tab'))
                );
                for (const fn of fnNames.slice(0, 10)) {
                    try {
                        window[fn]();
                    } catch (e) {
                        if (e.message && e.message.includes('" ++ tdzVarName ++ "') && e.message.includes('before initialization')) {
                            return false; // TDZ error found
                        }
                    }
                }
                return true; // No TDZ errors
            } catch (e) {
                return !e.message?.includes('before initialization');
            }
        });
        expect(noTdzError, '" ++ tdzVarName ++ " should not cause TDZ errors').toBe(true);") in
    Normal (Some (testName, checkCode))
  else if type === "notFunction" then
    let cap0 := interp (first_capture captures) in
    let testName := "function_" ++ cap0 ++ "_exists" in
    let checkCode := ("
        // Check that " ++ cap0 ++ " is a function
        const isFunction = await page.evaluate(() => {
            return typeof window." ++ cap0 ++ " === 'function';
        });
        expect(isFunction, '" ++ cap0 ++ " should be a function').toBe(true);") in
    Normal (Some (testName, checkCode))
  else Normal None.

Definition playwright_testCode (testName checkCode : string) : string :=
  ("
    test('regression: " ++ testName ++ "', async ({ page }) => {
        const htmlPath = path.resolve(__dirname, '../../src/frontend/index.html');
        await page.goto(`file://${htmlPath}`);
        await page.waitForLoadState('domcontentloaded');
        await page.waitForTimeout(1000);
" ++ checkCode ++ "
    });").

Definition push_generatedTest (t : GeneratedTest) : M unit :=
  modify (fun w =>
            set_registry (set_generatedTests (r_generatedTests (registry w) ++ [t])
                                             (registry w)) w).

Definition generatePlaywrightTest (error : ErrorRecord) : M bool :=
  match e_detectedPattern error with
  | None => throw (TypeError "Cannot destructure property 'type' of 'error.detectedPattern'")
  | Some dp =>
      r <- lift (playwright_case (dp_type dp) (dp_captures dp)) ;;
      match r with
      | None => ret false
      | Some (testName, checkCode) =>
          let testCode := playwright_testCode testName checkCode in
          generatedAt <- gets now_iso ;;
          push_generatedTest
            (mkTest (e_id error) testName testCode "playwright" generatedAt) ;;;
          ret true
      end
  end.

Definition generateESLintCheck (error : ErrorRecord) : M bool :=
  generatedAt <- gets now_iso ;;
  modify (fun w =>
            set_registry
              (set_patterns (r_patterns (registry w)
                               ++ [mkLint (e_id error) "eslint" "no-undef" generatedAt])
                            (registry w)) w) ;;;
  ret true.

(** The [switch (type)] of [generatePythonTest]: the test name and the
    test code, [None] for the default branch. *)
Definition python_case (type : string) (captures : captures)
  : option (string * string) :=
  let cap0 := interp (first_capture captures) in
  if type === "moduleName" then
    let testName := "test_module_" ++ cap0 ++ "_importable" in
    let testCode := ("
def " ++ testName ++ "():
    " ++ dq ++ dq ++ dq ++ "Regression test: ensure " ++ cap0 ++ " module is importable" ++ dq ++ dq ++ dq ++ "
    try:
        import " ++ cap0 ++ "
        assert True
    except ImportError:
        pytest.fail(" ++ dq ++ cap0 ++ " module should be importable" ++ dq ++ ")
") in
    Some (testName, testCode)
  else if type === "variableName" then
    let testName := "test_variable_" ++ cap0 ++ "_defined" in
    let testCode := ("
def " ++ testName ++ "():
    " ++ dq ++ dq ++ dq ++ "Regression test: ensure " ++ cap0 ++ " is defined" ++ dq ++ dq ++ dq ++ "
    # This test should be customized based on the module context
    pass
") in
    Some (testName, testCode)
  else None.

Definition generatePythonTest (error : ErrorRecord) : M bool :=
  match e_detectedPattern error with
  | None => throw (TypeError "Cannot destructure property 'type' of 'error.detectedPattern'")
  | Some dp =>
      match python_case (dp_type dp) (dp_captures dp) with
      | None => ret false
      | Some (testName, testCode) =>
          generatedAt <- gets now_iso ;;
          push_generatedTest
            (mkTest (e_id error) testName testCode "python" generatedAt) ;;;
          ret true
      end
  end.

Definition generateTestForError (error : ErrorRecord) : M bool :=
  match e_detectedPattern error with
  | None => ret false
  | Some dp =>
      let testType := dp_testType dp in
      if testType === "playwright" then generatePlaywrightTest error
      else if testType === "eslint" then generateESLintCheck error
      else if testType === "python" then generatePythonTest error
      else ret false
  end.

(* ===================================================================== *)
(** ** Reporting a failure *)
(* ===================================================================== *)

(** [list[i] = f(list[i])], nothing when [i] is out of range. *)
Fixpoint update_at {A} (i : nat) (f : A -> A) (l : list A) : list A :=
  match l, i with
  | [], _ => []
  | x :: l', O => f x :: l'
  | x :: l', S i' => x :: update_at i' f l'
  end.

(** [this.registry.errors.push(error)]; the index at which the object
    now sits identifies it for the assignments that follow. *)
Definition push_error (error : ErrorRecord) : M nat :=
  idx <- gets (fun w => length (r_errors (registry w))) ;;
  modify (fun w =>
            set_registry (set_errors (r_errors (registry w) ++ [error]) (registry w)) w) ;;;
  ret idx.

Definition with_detectedPattern (p : DetectedPattern) (e : ErrorRecord) : ErrorRecord :=
  mkError (e_id e) (e_message e) (e_category e) (e_context e) (e_reportedAt e)
          (e_status e) (e_testGenerated e) (Some p) (e_similarErrors e).

Definition with_similarErrors (ids : list string) (e : ErrorRecord) : ErrorRecord :=
  mkError (e_id e) (e_message e) (e_category e) (e_context e) (e_reportedAt e)
          (e_status e) (e_testGenerated e) (e_detectedPattern e) (Some ids).

(** [error.testGenerated = true; error.status = 'test-generated'] *)
Definition mark_generated (e : ErrorRecord) : ErrorRecord :=
  mkError (e_id e) (e_message e) (e_category e) (e_context e) (e_reportedAt e)
          "test-generated" true (e_detectedPattern e) (e_similarErrors e).

Definition reportError (errorMessage category : string) (context : Context)
  : M ErrorRecord :=
  ms <- gets now_ms ;;
  rnd <- gets random36 ;;
  reportedAt <- gets now_iso ;;
  let error :=
    mkError ("err_" ++ ms ++ "_" ++ rnd) errorMessage category context reportedAt
            "new" false None None in
  detectedPattern <- lift (detectPattern errorMessage category) ;;
  let error :=
    match detectedPattern with
    | Some p => with_detectedPattern p error
    | None => error
    end in
  similar <- gets (fun w => findSimilarErrors (registry w) errorMessage) ;;
  let error :=
    if 0 <? length similar then with_similarErrors (map e_id similar) error
    else error in
  idx <- push_error error ;;
  saveRegistry ;;;
  testGenerated <- generateTestForError error ;;
  if testGenerated : bool then
    modify (fun w =>
              set_registry (set_errors (update_at idx mark_generated (r_errors (registry w)))
                                       (registry w)) w) ;;;
    saveRegistry ;;;
    gets (fun w => nth idx (r_errors (registry w)) error)
  else ret error.

(* ===================================================================== *)
(** ** Exporter *)
(* ===================================================================== *)

(** [path.join] of a directory and a relative path. *)
Definition path_join (dir rel : string) : string := dir ++ "/" ++ rel.

(** [existsSync(p) ? readFileSync(p, 'utf8') : ''] *)
Definition read_or_empty (p : string) : M string :=
  gets (fun w => match files w p with
                 | Some text => text
                 | None => EmptyString
                 end).

Definition writeFileSync (p text : string) : M unit :=
  modify (fun w => set_files (fun q => if String.eqb q p then Some text else files w q) w).

Definition playwright_file (body : string) : string :=
  ("// @ts-check
const { test, expect } = require('@playwright/test');
const path = require('path');

/**
 * Auto-generated Regression Tests
 *
 * These tests were automatically generated by the Error Learning System
 * to prevent previously encountered errors from recurring.
 *
 * DO NOT EDIT MANUALLY - regenerate using:
 *   node ../agentic-dev-pipeline/workflows/error-learning.js --export-tests
 */

test.describe('Regression Tests - Error Prevention', () => {
" ++ body ++ "
});
").

Definition python_file (body : string) : string :=
  (dq ++ dq ++ dq ++ "
Auto-generated Regression Tests

These tests were automatically generated by the Error Learning System
to prevent previously encountered errors from recurring.

DO NOT EDIT MANUALLY - regenerate using:
    node ../agentic-dev-pipeline/workflows/error-learning.js --export-tests
" ++ dq ++ dq ++ dq ++ "

import pytest
import sys
import os

sys.path.insert(0, os.path.join(os.path.dirname(__file__), '..', 'src', 'backend'))

" ++ body ++ "
").

Definition PLAYWRIGHT_TARGET : string := "tests/frontend/test_regression_errors.spec.js".
Definition PYTHON_TARGET : string := "tests/test_regression_errors.py".

Definition exportPlaywrightTests (projectPath : string) (tests : list GeneratedTest)
  : M unit :=
  let testFilePath := path_join projectPath PLAYWRIGHT_TARGET in
  existingTests <- read_or_empty testFilePath ;;
  let newTests := filter (fun t => negb (includes existingTests (t_testName t))) tests in
  if length newTests =? 0 then ret tt
  else
    let testFileContent := playwright_file (join nl (map t_testCode newTests)) in
    writeFileSync testFilePath testFileContent.

Definition exportPythonTests (projectPath : string) (tests : list GeneratedTest)
  : M unit :=
  let testFilePath := path_join projectPath PYTHON_TARGET in
  existingTests <- read_or_empty testFilePath ;;
  let newTests := filter (fun t => negb (includes existingTests (t_testName t))) tests in
  if length newTests =? 0 then ret tt
  else
    let testFileContent := python_file (join nl (map t_testCode newTests)) in
    writeFileSync testFilePath testFileContent.

Definition exportTests (projectPath : string) : M (nat * nat) :=
  playwrightTests <- gets (fun w => filter (fun t => t_testType t === "playwright")
                                           (r_generatedTests (registry w))) ;;
  pythonTests <- gets (fun w => filter (fun t => t_testType t === "python")
                                       (r_generatedTests (registry w))) ;;
  (if 0 <? length playwrightTests
   then exportPlaywrightTests projectPath playwrightTests else ret tt) ;;;
  (if 0 <? length pythonTests
   then exportPythonTests projectPath pythonTests else ret tt) ;;;
  ret (length playwrightTests, length pythonTests).

(* ===================================================================== *)
(** ** Category guessed from the message *)
(* ===================================================================== *)


(* ===================================================================== *)
(** ** Summary of a registry *)
(* ===================================================================== *)

(** A value of the object that [getSummary] tallies into: a count, or the
    text that [+ 1] makes of a function or object inherited from
    [Object.prototype] (its wording depends on the engine). *)
Inductive Tally : Type :=
| Count (n : nat)
| Text.

(** The own properties of the tally object. *)
Definition Tallies := list (string * Tally).

Fixpoint tally_get (acc : Tallies) (key : string) : option Tally :=
  match acc with
  | [] => None
  | (k, v) :: acc' => if String.eqb k key then Some v else tally_get acc' key
  end.

Fixpoint tally_set (acc : Tallies) (key : string) (v : Tally) : Tallies :=
  match acc with
  | [] => [(key, v)]
  | (k, old) :: acc' =>
      if String.eqb k key then (k, v) :: acc' else (k, old) :: tally_set acc' key v
  end.

(** [acc[e.category] = (acc[e.category] || 0) + 1].  A read that finds
    no own property falls back on the inherited one, which is truthy; the
    assignment to [__proto__] of the text so obtained is ignored. *)
Definition tally_step (acc : Tallies) (e : ErrorRecord) : Tallies :=
  let category := e_category e in
  let next :=
    match tally_get acc category with
    | Some (Count n) => Count (n + 1)
    | Some Text => Text
    | None => if arr_includes OBJECT_PROTOTYPE_KEYS category then Text else Count 1
    end in
  if category === "__proto__" then acc else tally_set acc category next.

Record Summary := mkSummary {
  totalErrors : nat;
  testsGenerated : nat;
  byCategory : Tallies;
  lastUpdated : option string
}.

Definition getSummary (this : Registry) : Summary :=
  mkSummary (length (r_errors this))
            (length (r_generatedTests this))
            (fold_left tally_step (r_errors this) [])
            (r_updatedAt this).

(* ===================================================================== *)
(** ** The smoke-test runner's hook *)
(* ===================================================================== *)

Record Captured := mkCaptured {
  cap_message : string;
  cap_category : string;
  cap_context : Context
}.

(** The part of a [SmokeTestRunner] that [captureError] uses: the captured
    errors and whether [this.errorLearner] is set; the learner's registry
    is the one of the [World]. *)
Record Runner := mkRunner {
  capturedErrors : list Captured;
  errorLearner : bool
}.

(** [captureError]: the capture is recorded first; an exception of
    [reportError] is caught and dropped, what the call did until then
    stays. *)
Definition captureError (message category : string) (context : Context)
           (this : Runner) (w : World) : Runner * World :=
  let this' :=
    mkRunner (capturedErrors this ++ [mkCaptured message category context])
             (errorLearner this) in
  if errorLearner this'
  then
    match reportError message category context w with
    | (Normal _, w') => (this', w')
    | (Throw _, w') => (this', w')
    end
  else (this', w).

(* ===================================================================== *)
(** ** The similarity rule as the design document words it *)
(* ===================================================================== *)

(** The filtered token set of a text: its significant words, each once. *)
Definition spec_token_set (text : string) : list string :=
  nodup string_dec (significant_words text).

(** The intersection of the query's token set with a record's. *)
Definition spec_intersection (query message : string) : list string :=
  filter (fun w => arr_includes (spec_token_set message) w) (spec_token_set query).

(** Similarity as worded: intersection size at least
    [min(3, 0.5 * queryTokenCount)], the count being that of the token set. *)
Definition spec_findSimilar (this : Registry) (query : string) : list ErrorRecord :=
  filter (fun e =>
            meets_threshold (length (spec_intersection query (e_message e)))
                            (length (spec_token_set query)))
         (r_errors this).

(** The same with the count read as the length of the filtered word list. *)
Definition spec_findSimilar_by_length (this : Registry) (query : string)
  : list ErrorRecord :=
  filter (fun e =>
            meets_threshold (length (spec_intersection query (e_message e)))
                            (length (significant_words query)))
         (r_errors this).

(** What the code counts: for each distinct word of the record, the number
    of times it occurs among the query's significant words. *)
Definition shared_occurrences (query message : string) : nat :=
  list_sum (map (count_occ string_dec (significant_words query))
                (nodup string_dec (significant_words message))).

(** A record that carries nothing but a message. *)
Definition record_of_message (id message : string) : ErrorRecord :=
  mkError id message "unknown" [] "" "new" false None None.

Definition registry_of (errors : list ErrorRecord) : Registry :=
  mkRegistry "demo" "1.0" "" None errors [] [].

(* ===================================================================== *)
(** ** Vocabulary for the statements about reporting *)
(* ===================================================================== *)

(** The object [reportError] has built when it reaches [push]: the fresh
    record, with the detected pattern and the similar ids when there are
    any. *)
Definition reported_record (errorMessage category : string) (context : Context)
           (dp : option DetectedPattern) (w : World) : ErrorRecord :=
  let error :=
    mkError ("err_" ++ now_ms w ++ "_" ++ random36 w) errorMessage category context
            (now_iso w) "new" false None None in
  let error :=
    match dp with
    | Some p => with_detectedPattern p error
    | None => error
    end in
  let similar := findSimilarErrors (registry w) errorMessage in
  if 0 <? length similar then with_similarErrors (map e_id similar) error
  else error.

(** The world after [push] and the first [saveRegistry]. *)
Definition stored (e0 : ErrorRecord) (w : World) : World :=
  snd ((push_error e0 ;;; saveRegistry) w).

(** The world after the two assignments and the second [saveRegistry]. *)
Definition marked (idx : nat) (w : World) : World :=
  snd ((modify (fun w =>
                  set_registry
                    (set_errors (update_at idx mark_generated (r_errors (registry w)))
                                (registry w)) w) ;;;
        saveRegistry) w).

(** A record whose status and flag agree, the status being one of the
    two values of the life cycle. *)
Definition status_consistent (e : ErrorRecord) : Prop :=
  (e_status e = "test-generated" <-> e_testGenerated e = true) /\
  (e_status e = "new" \/ e_status e = "test-generated").

(** The state of a process that has just constructed the system for a
    project without a registry document. *)
Definition initial_world (projectName : string) (ms iso rnd : string) : World :=
  snd (construct projectName
         (mkWorld (fresh_registry projectName iso) Absent (fun _ => None) ms iso rnd)).

(** The registry document, when there is one, holds consistent records. *)
Definition disk_consistent (w : World) : Prop :=
  match disk w with
  | Doc r => Forall status_consistent (r_errors r)
  | Corrupt | Absent => True
  end.

(** The states the system can be in: constructed on an empty store, then
    any number of reports, exports and restarts from the registry document,
    the clock and the random source moving freely between calls. *)
Inductive reachable : World -> Prop :=
| reach_initial (projectName ms iso rnd : string) :
    reachable (initial_world projectName ms iso rnd)
| reach_clock (w : World) (ms iso rnd : string) :
    reachable w -> reachable (with_clock ms iso rnd w)
| reach_restart (w : World) (projectName : string) :
    reachable w -> reachable (snd (construct projectName w))
| reach_report (w : World) (msg cat : string) (ctx : Context) :
    reachable w -> reachable (snd (reportError msg cat ctx w))
| reach_export (w : World) (projectPath : string) :
    reachable w -> reachable (snd (exportTests projectPath w)).

(** A record as [reportError] makes it: its pattern is what the detector
    finds for its message and category. *)
Definition well_formed_record (e : ErrorRecord) : Prop :=
  detectPattern (e_message e) (e_category e) = Normal (e_detectedPattern e).

(** Sample readings of the clock and of the random source. *)
Definition SAMPLE_MS : string := "1700000000000".
Definition SAMPLE_ISO : string := "2023-11-14T22:13:20.000Z".
Definition SAMPLE_RND : string := "k3j9x2m1q".

Definition sample_world : World := initial_world "demo" SAMPLE_MS SAMPLE_ISO SAMPLE_RND.

(** The fragment a synthesis step has appended last. *)
Definition synthesized_last (e : ErrorRecord) (w : World) : GeneratedTest :=
  last (r_generatedTests (registry (snd (generateTestForError e w))))
       (mkTest "" "" "" "" "").

(** *** A session that reports two failures and exports in between *)

Definition PROJECT_PATH : string := "/work/app".

Definition target_file : string := path_join PROJECT_PATH PLAYWRIGHT_TARGET.

Definition after_first_report : World :=
  snd (reportError "fooBar is not defined" "js-runtime" [] sample_world).

Definition after_first_export : World :=
  snd (exportTests PROJECT_PATH after_first_report).

Definition after_second_report : World :=
  snd (reportError "doIt is not a function" "js-runtime" []
         (with_clock "1700000060000" "2023-11-14T22:14:20.000Z" "p0q8r7s6t"
                     after_first_export)).

Definition exported_once : World :=
  snd (exportTests PROJECT_PATH after_second_report).

Definition exported_twice : World :=
  snd (exportTests PROJECT_PATH exported_once).

(** The file text at a path, empty when there is no file. *)
Definition file_text (w : World) (p : string) : string :=
  match files w p with
  | Some text => text
  | None => EmptyString
  end.

(** *** A target file that a person has written into *)

Definition HAND_WRITTEN : string :=
  "// covered by hand: variable_fooBar_accessible".

Definition with_hand_written_target : World :=
  snd (writeFileSync target_file HAND_WRITTEN after_second_report).

Definition exported_over_hand_written : World :=
  snd (exportTests PROJECT_PATH with_hand_written_target).

(** The two messages of the literal similarity case. *)
Definition MSG_INIT : string := "fooBar is not defined in init.js".
Definition MSG_MAIN : string := "fooBar is not defined in main.js".

(* ===================================================================== *)
(** ** Vocabulary for the statements about matching *)
(* ===================================================================== *)

(** Groups that take part in every match of a regex. *)
Fixpoint sure_groups (r : regex) : list nat :=
  match r with
  | Seq r1 r2 => (sure_groups r1 ++ sure_groups r2)%list
  | Group i r' => i :: sure_groups r'
  | _ => []
  end.

(** The capture with index [i] is defined. *)
Definition captured (i : nat) (cs : captures) : Prop := nth i cs None <> None.

Definition extends_captures (cs cs' : captures) : Prop :=
  length cs' = length cs /\ forall i, captured i cs -> captured i cs'.

Definition is_suffix (s' s : list ascii) : Prop := exists mid, s = (mid ++ s')%list.

(** The continuation [k] has produced [x], on a suffix of [s] and with
    captures that extend [cs] and define the groups in [sure]. *)
Definition reaches {R : Type} (k : @cont R) (x : R) (s : list ascii) (cs : captures)
           (sure : list nat) : Prop :=
  exists s' cs',
    k s' cs' = Some x /\ is_suffix s' s /\ extends_captures cs cs' /\
    forall i, In i sure -> i < length cs -> captured i cs'.

(** The rule does not match the message. *)
Definition no_match (msg : string) (pat : Pattern) : Prop :=
  str_match msg (p_regex pat) = None.

(** A non-empty run of word characters. *)
Definition is_identifier (v : string) : bool :=
  (0 <? String.length v) && forallb isWordChar (list_ascii_of_string v).

(** The text is empty or begins with a character that is no word
    character. *)
Definition not_word_start (s : string) : bool :=
  match s with
  | EmptyString => true
  | String c _ => negb (isWordChar c)
  end.

(* ===================================================================== *)
(** ** Vocabulary for the statements about synthesis and export *)
(* ===================================================================== *)

(** The kinds with a case in the [switch] of [generatePlaywrightTest] and
    of [generatePythonTest]. *)
Definition PLAYWRIGHT_KINDS : list string :=
  ["variableName"; "temporalDeadZone"; "notFunction"].

Definition PYTHON_KINDS : list string := ["moduleName"; "variableName"].

(** The pattern has a generator: its test type has one and, for fragments,
    its kind has a case. *)
Definition synthesizable (p : DetectedPattern) : bool :=
  if dp_testType p === "playwright" then arr_includes PLAYWRIGHT_KINDS (dp_type p)
  else if dp_testType p === "eslint" then true
  else if dp_testType p === "python" then arr_includes PYTHON_KINDS (dp_type p)
  else false.

(** The six kinds of the taxonomy for which a report leaves a fragment or
    a lint entry. *)
Definition REMEDIED_KINDS : list string :=
  ["variableName"; "temporalDeadZone"; "notFunction"; "syntaxError";
   "unterminatedString"; "moduleName"].

Definition push_lint (l : LintPattern) (w : World) : World :=
  set_registry (set_patterns (r_patterns (registry w) ++ [l]) (registry w)) w.

Definition push_test (t : GeneratedTest) (w : World) : World :=
  snd (push_generatedTest t w).

(** Checks on one row of the taxonomy: a browser rule of kind
    'variableName' has a first group that always takes part, and the rule's
    kind is remedied exactly when its generator has a case for it. *)
Definition capture_rule_ok (cfg : CategoryConfig) (pat : Pattern) : bool :=
  implb ((c_testType cfg === "playwright") && (p_extract pat === "variableName"))
        (existsb (Nat.eqb 0) (sure_groups (p_regex pat)) && (0 <? ngroups (p_regex pat))).

Definition kind_rule_ok (cfg : CategoryConfig) (pat : Pattern) : bool :=
  Bool.eqb (synthesizable (mkDetected (p_extract pat) "" [] (c_testType cfg)))
           (arr_includes REMEDIED_KINDS (p_extract pat)).

(** The body the two export methods share, for an envelope and a target
    path. *)
Definition export_to (envelope : string -> string) (target : string)
           (tests : list GeneratedTest) : M unit :=
  existingTests <- read_or_empty target ;;
  let newTests := filter (fun t => negb (includes existingTests (t_testName t))) tests in
  if length newTests =? 0 then ret tt
  else writeFileSync target (envelope (join nl (map t_testCode newTests))).

(** Some record of the registry has this id and is 'test-generated'. *)
Definition owner_of (r : Registry) (id : string) : Prop :=
  exists e, In e (r_errors r) /\ e_id e = id /\ e_status e = "test-generated".

(** Referential integrity of a registry: every fragment contains its own
    name, is of a kind that is exported, and belongs to a 'test-generated'
    record; every lint entry is the 'no-undef' entry of such a record; and
    every 'test-generated' record has a fragment or a lint entry. *)
Definition registry_sound (r : Registry) : Prop :=
  (forall t, In t (r_generatedTests r) ->
             includes (t_testCode t) (t_testName t) = true /\
             (t_testType t = "playwright" \/ t_testType t = "python") /\
             owner_of r (t_errorId t)) /\
  (forall l, In l (r_patterns r) ->
             l_type l = "eslint" /\ l_rule l = "no-undef" /\ owner_of r (l_errorId l)) /\
  (forall e, In e (r_errors r) -> e_status e = "test-generated" ->
             (exists t, In t (r_generatedTests r) /\ t_errorId t = e_id e) \/
             (exists l, In l (r_patterns r) /\ l_errorId l = e_id e)).

Definition disk_sound (w : World) : Prop :=
  match disk w with
  | Doc r => registry_sound r
  | Corrupt | Absent => True
  end.

(** The record's category is no property name inherited by every object. *)
Definition category_plain (e : ErrorRecord) : Prop :=
  get_category (e_category e) <> Inherited.

Definition records_on_disk (P : ErrorRecord -> Prop) (w : World) : Prop :=
  match disk w with
  | Doc r => Forall P (r_errors r)
  | Corrupt | Absent => True
  end.

(** The number of records of a category, and the tally that stands for it:
    no property at all for zero. *)
Definition records_in (category : string) (errors : list ErrorRecord) : nat :=
  length (filter (fun e => e_category e === category) errors).

Definition tally_of (n : nat) : option Tally :=
  match n with
  | O => None
  | S _ => Some (Count n)
  end.

(** The record a call returns, the placeholder when it throws. *)
Definition returned (c : Completion ErrorRecord) : ErrorRecord :=
  match c with
  | Normal e => e
  | Throw _ => record_of_message "" ""
  end.

(** The records of the session's two reports. *)
Definition first_record : ErrorRecord :=
  returned (fst (reportError "fooBar is not defined" "js-runtime" [] sample_world)).

Definition second_record : ErrorRecord :=
  returned (fst (reportError "doIt is not a function" "js-runtime" []
                   (with_clock "1700000060000" "2023-11-14T22:14:20.000Z" "p0q8r7s6t"
                               after_first_export))).


(** The number of records whose status is 'test-generated'. *)
Definition remedied (errors : list ErrorRecord) : nat :=
  length (filter (fun e => e_status e === "test-generated") errors).

(** Every 'test-generated' record is paid for by one fragment or one lint
    entry, and by nothing else. *)
Definition remedies_counted (r : Registry) : Prop :=
  remedied (r_errors r) = length (r_generatedTests r) + length (r_patterns r).

Definition disk_counted (w : World) : Prop :=
  match disk w with
  | Doc r => remedies_counted r
  | Corrupt | Absent => True
  end.
(* ===================================================================== *)
(** * Properties *)
(* ===================================================================== *)

(** Case analysis on membership in an explicit list. *)
Ltac in_cases H := repeat (destruct H as [H | H]); try contradiction.

(** ** The matcher *)

Section MatcherFacts.
Context {R : Type}.
Implicit Types (k : @cont R) (r : regex).

Lemma star_loop_none step k :
  (forall s cs k', (forall s' cs', k' s' cs' = None) -> step s cs k' = None) ->
  (forall s cs, k s cs = None) ->
  forall fuel s cs, star_loop step k fuel s cs = None.
Proof.
  intros Hstep Hk fuel. induction fuel as [| fuel IH]; intros s cs; simpl.
  - apply Hk.
  - rewrite Hstep; [apply Hk |].
    intros s' cs'. destruct (length s' <? length s); [apply IH | reflexivity].
Qed.

(** A match is only ever produced by the continuation. *)
Lemma rmatch_none r :
  forall s cs k, (forall s' cs', k s' cs' = None) -> rmatch r s cs k = None.
Proof.
  induction r as [| c | | | r1 IH1 r2 IH2 | r1 IH1 r2 IH2 | r IH | i r IH];
    intros s cs k Hk; simpl.
  - apply Hk.
  - destruct s as [| x s']; [reflexivity |]. destruct (Ascii.eqb x c); auto.
  - destruct s as [| x s']; [reflexivity |]. destruct (isLineTerminator x); auto.
  - destruct s as [| x s']; [reflexivity |]. destruct (isWordChar x); auto.
  - apply IH1. intros s' cs'. now apply IH2.
  - rewrite IH1 by exact Hk. now apply IH2.
  - now apply star_loop_none.
  - apply IH. intros s' cs'. apply Hk.
Qed.

Lemma star_loop_ext step k1 k2 :
  (forall s cs ka kb, (forall s' cs', ka s' cs' = kb s' cs') ->
                      step s cs ka = step s cs kb) ->
  (forall s cs, k1 s cs = k2 s cs) ->
  forall fuel s cs, star_loop step k1 fuel s cs = star_loop step k2 fuel s cs.
Proof.
  intros Hstep Hk fuel. induction fuel as [| fuel IH]; intros s cs; simpl.
  - apply Hk.
  - rewrite Hk.
    rewrite (Hstep s cs _
               (fun s' cs' =>
                  if length s' <? length s then star_loop step k2 fuel s' cs'
                  else None)); [reflexivity |].
    intros s' cs'. destruct (length s' <? length s); [apply IH | reflexivity].
Qed.

(** The matcher only looks at the values of its continuation. *)
Lemma rmatch_ext r :
  forall s cs k1 k2, (forall s' cs', k1 s' cs' = k2 s' cs') ->
                     rmatch r s cs k1 = rmatch r s cs k2.
Proof.
  induction r as [| c | | | r1 IH1 r2 IH2 | r1 IH1 r2 IH2 | r IH | i r IH];
    intros s cs k1 k2 Hk; simpl.
  - apply Hk.
  - destruct s as [| x s']; [reflexivity |]. destruct (Ascii.eqb x c); auto.
  - destruct s as [| x s']; [reflexivity |]. destruct (isLineTerminator x); auto.
  - destruct s as [| x s']; [reflexivity |]. destruct (isWordChar x); auto.
  - apply IH1. intros s' cs'. now apply IH2.
  - rewrite (IH1 s cs k1 k2 Hk), (IH2 s cs k1 k2 Hk). reflexivity.
  - now apply star_loop_ext.
  - apply IH. intros s' cs'. apply Hk.
Qed.

(** The iteration bound of a repetition is never what stops it: from the
    length of the input on, more fuel changes nothing. *)
Lemma star_loop_fuel r k :
  forall fuel s cs,
    length s <= fuel ->
    star_loop (rmatch r) k (S fuel) s cs = star_loop (rmatch r) k fuel s cs.
Proof.
  induction fuel as [| fuel IH]; intros s cs Hlen.
  - simpl. rewrite rmatch_none; [reflexivity |].
    intros s' cs'. destruct s; simpl in Hlen; [reflexivity | lia].
  - cbn [star_loop].
    rewrite (rmatch_ext r s cs _
               (fun s' cs' =>
                  if length s' <? length s then star_loop (rmatch r) k fuel s' cs'
                  else None)); [reflexivity |].
    intros s' cs'. destruct (length s' <? length s) eqn:E; [| reflexivity].
    apply Nat.ltb_lt in E. apply IH. lia.
Qed.

End MatcherFacts.

(** ** Similarity matcher *)

Lemma arr_includes_In (arr : list string) (w : string) :
  arr_includes arr w = true <-> In w arr.
Proof.
  unfold arr_includes. rewrite existsb_exists. split.
  - intros [x [Hx Heq]]. apply String.eqb_eq in Heq. now subst.
  - intros H. exists w. split; [assumption | apply String.eqb_refl].
Qed.

Lemma arr_includes_false (arr : list string) (w : string) :
  arr_includes arr w = false <-> ~ In w arr.
Proof.
  rewrite <- arr_includes_In. destruct (arr_includes arr w); intuition congruence.
Qed.

(** The threshold test in integers: twice the common count reaches
    [min(6, total)]. *)
Lemma meets_threshold_nat (common total : nat) :
  meets_threshold common total = true <-> Nat.min 6 total <= 2 * common.
Proof.
  unfold meets_threshold, threshold. rewrite Qle_bool_iff.
  unfold Qmin, GenericMinMax.gmin.
  destruct (Qcompare (3 # 1) (inject_Z (Z.of_nat total) * (1 # 2))) eqn:E.
  - apply Qeq_alt in E. revert E. unfold Qeq, Qle, Qmult, inject_Z. cbn [Qnum Qden]. lia.
  - apply Qlt_alt in E. revert E. unfold Qlt, Qle, Qmult, inject_Z. cbn [Qnum Qden]. lia.
  - apply Qgt_alt in E. revert E. unfold Qlt, Qle, Qmult, inject_Z. cbn [Qnum Qden]. lia.
Qed.

Lemma findSimilarErrors_In (this : Registry) (q : string) (e : ErrorRecord) :
  In e (findSimilarErrors this q) <->
  In e (r_errors this) /\
  meets_threshold
    (length (filter (fun w => arr_includes (significant_words (e_message e)) w)
                    (significant_words q)))
    (length (significant_words q)) = true.
Proof. unfold findSimilarErrors. apply filter_In. Qed.

Lemma filter_all_true {A} (f : A -> bool) (l : list A) :
  (forall x, In x l -> f x = true) -> filter f l = l.
Proof.
  intros H. apply forallb_filter_id. apply forallb_forall. exact H.
Qed.

Lemma filter_none {A} (f : A -> bool) (l : list A) :
  Forall (fun x => f x = false) l -> filter f l = [].
Proof.
  induction 1 as [| x l Hx _ IH]; simpl; [reflexivity |].
  now rewrite Hx.
Qed.

Lemma short_words_not_significant (text : string) :
  Forall (fun w => String.length w <= 3) (split_nonword (toLowerCase text)) ->
  significant_words text = [].
Proof.
  intros H. unfold significant_words. apply filter_none.
  eapply Forall_impl; [| exact H].
  intros w Hw. simpl in Hw. apply Nat.ltb_ge. exact Hw.
Qed.

(** Adding one word [w] to the query adds, over the words [l] of a record,
    the number of times [w] stands in [l]. *)
Lemma sum_count_occ_cons (w : string) (ws l : list string) :
  list_sum (map (count_occ string_dec (w :: ws)) l) =
  count_occ string_dec l w + list_sum (map (count_occ string_dec ws) l).
Proof.
  induction l as [| t l IH]; [reflexivity |].
  cbn [map]. unfold list_sum in *. cbn [fold_right]. rewrite IH. cbn [count_occ].
  destruct (string_dec w t) as [-> | Hne].
  - destruct (string_dec t t) as [_ | Hc]; [lia | congruence].
  - destruct (string_dec t w) as [Heq | _]; [congruence | lia].
Qed.

Lemma count_occ_nodup (l : list string) (w : string) :
  count_occ string_dec (nodup string_dec l) w = if arr_includes l w then 1 else 0.
Proof.
  destruct (arr_includes l w) eqn:E.
  - apply arr_includes_In in E.
    apply (proj1 (NoDup_count_occ' string_dec (nodup string_dec l))
                 (NoDup_nodup string_dec l)).
    now apply nodup_In.
  - apply arr_includes_false in E.
    apply count_occ_not_In. now rewrite nodup_In.
Qed.

(** [commonWords.length] counts occurrences in the query, not distinct
    words. *)
Lemma common_words_length (ex ws : list string) :
  length (filter (fun w => arr_includes ex w) ws) =
  list_sum (map (count_occ string_dec ws) (nodup string_dec ex)).
Proof.
  induction ws as [| w ws IH].
  - simpl. induction (nodup string_dec ex) as [| t l IHl]; simpl; auto.
  - rewrite sum_count_occ_cons, count_occ_nodup. simpl.
    destruct (arr_includes ex w); simpl; rewrite IH; reflexivity.
Qed.

(** When every shared word is [w], the common words are the occurrences
    of [w] in the query. *)
Lemma common_words_single (ex ws : list string) (w : string) :
  (forall x, In x ws /\ In x ex <-> x = w) ->
  length (filter (fun x => arr_includes ex x) ws) = count_occ string_dec ws w.
Proof.
  intros H.
  assert (Hw : In w ex) by (apply (proj2 (H w) eq_refl)).
  assert (Hsub : forall x, In x ws -> In x ex -> x = w)
    by (intros x Hx Hx'; apply H; now split).
  clear H. induction ws as [| a ws IH]; [reflexivity |].
  cbn [filter count_occ].
  destruct (arr_includes ex a) eqn:E.
  - apply arr_includes_In in E.
    assert (a = w) as -> by (apply Hsub; [now left | exact E]).
    destruct (string_dec w w) as [_ | Hc]; [| congruence].
    simpl. f_equal. apply IH. intros x Hx. apply Hsub. now right.
  - apply arr_includes_false in E.
    destruct (string_dec a w) as [-> | _]; [contradiction |].
    apply IH. intros x Hx. apply Hsub. now right.
Qed.

(** C10. A query without any word longer than three characters has
    threshold [min(3, 0.5 * 0) = 0], and [findSimilarErrors] returns
    every record of the corpus. *)
Theorem short_query_returns_every_record (this : Registry) (q : string) :
  Forall (fun w => String.length w <= 3) (split_nonword (toLowerCase q)) ->
  (threshold (length (significant_words q)) == 0)%Q /\
  findSimilarErrors this q = r_errors this.
Proof.
  intros Hshort. apply short_words_not_significant in Hshort.
  unfold findSimilarErrors. rewrite Hshort. split.
  - reflexivity.
  - apply filter_all_true. intros e _. reflexivity.
Qed.

Lemma short_query_returns_every_record_witness :
  let e := record_of_message "err_1" "disk quota exceeded" in
  Forall (fun w => String.length w <= 3) (split_nonword (toLowerCase "x is not ok")) /\
  findSimilarErrors (registry_of [e]) "x is not ok" = [e].
Proof.
  intros e.
  assert (H : Forall (fun w => String.length w <= 3)
                     (split_nonword (toLowerCase "x is not ok")))
    by (repeat constructor).
  split; [exact H |].
  exact (proj2 (short_query_returns_every_record (registry_of [e]) "x is not ok" H)).
Defined.

(** C3, refuted as worded: a query that repeats a word reaches the
    threshold on that word alone, although the token sets share a single
    element. *)
Lemma similarity_token_set_counterexample :
  let e := record_of_message "err_1" "retry later" in
  let this := registry_of [e] in
  let q := "retry failed retry failed retry failed connection timeout" in
  findSimilarErrors this q = [e] /\
  spec_findSimilar this q = [] /\
  spec_findSimilar_by_length this q = [] /\
  findSimilarErrors this q <> spec_findSimilar this q.
Proof.
  vm_compute. repeat split. discriminate.
Qed.

(** C3, amended. [findSimilarErrors] returns, in registry order, exactly
    the records for which the number of query word occurrences that are
    also words of the record reaches [min(3, 0.5 * n)], [n] being the length
    of the query's filtered word list, repetitions counted. *)
Theorem similarity_membership_by_occurrences (this : Registry) (q : string) :
  findSimilarErrors this q =
  filter (fun e =>
            Qle_bool (threshold (length (significant_words q)))
                     (inject_Z (Z.of_nat (shared_occurrences q (e_message e)))))
         (r_errors this).
Proof.
  unfold findSimilarErrors, shared_occurrences. apply filter_ext. intros e.
  unfold meets_threshold. now rewrite common_words_length.
Qed.

(** C7, refuted as worded: two messages whose only shared significant
    word is "error" return each other, because a query of two words has
    threshold one. *)
Lemma single_shared_word_counterexample :
  let a := record_of_message "err_1" "syntax error" in
  let b := record_of_message "err_2" "timeout error" in
  let this := registry_of [a; b] in
  (forall x, In x (significant_words (e_message a)) /\
             In x (significant_words (e_message b)) <-> x = "error") /\
  In b (findSimilarErrors this (e_message a)) /\
  In a (findSimilarErrors this (e_message b)).
Proof.
  cbv zeta. split; [| split].
  - intros x. vm_compute. split.
    + intros [H H']. in_cases H; in_cases H'; subst; congruence.
    + intros ->. split; right; left; reflexivity.
  - vm_compute. right. left. reflexivity.
  - vm_compute. left. reflexivity.
Qed.

(** C7, amended.  The records with the two literal messages return each
    other; and a query with at least three significant words, of which a
    single occurrence of one word [w] is all it shares with a record's
    message, does not return that record. *)
Theorem similarity_literal_and_single_shared_word
        (this : Registry) (e1 e2 : ErrorRecord) (w : string) :
  (e_message e1 = MSG_INIT -> e_message e2 = MSG_MAIN ->
   (In e2 (r_errors this) -> In e2 (findSimilarErrors this (e_message e1))) /\
   (In e1 (r_errors this) -> In e1 (findSimilarErrors this (e_message e2)))) /\
  ((forall x, In x (significant_words (e_message e1)) /\
              In x (significant_words (e_message e2)) <-> x = w) ->
   count_occ string_dec (significant_words (e_message e1)) w = 1 ->
   3 <= length (significant_words (e_message e1)) ->
   ~ In e2 (findSimilarErrors this (e_message e1))).
Proof.
  split.
  - intros H1 H2. split; intros Hin; apply findSimilarErrors_In;
      (split; [exact Hin |]); rewrite H1, H2; vm_compute; reflexivity.
  - intros Hshared Honce Hlen Hin.
    apply findSimilarErrors_In in Hin. destruct Hin as [_ Hmeet].
    rewrite (common_words_single _ _ w Hshared), Honce in Hmeet.
    apply meets_threshold_nat in Hmeet. lia.
Qed.

Lemma similarity_literal_and_single_shared_word_witness :
  let i := record_of_message "err_1" MSG_INIT in
  let m := record_of_message "err_2" MSG_MAIN in
  let a := record_of_message "err_3" "database connection timeout" in
  let b := record_of_message "err_4" "timeout while parsing" in
  In m (findSimilarErrors (registry_of [i; m]) MSG_INIT) /\
  In i (findSimilarErrors (registry_of [i; m]) MSG_MAIN) /\
  ~ In b (findSimilarErrors (registry_of [a; b]) "database connection timeout").
Proof.
  intros i m a b.
  pose proof (proj1 (similarity_literal_and_single_shared_word
                       (registry_of [i; m]) i m "") eq_refl eq_refl) as [Him Hmi].
  split; [apply Him; right; left; reflexivity |].
  split; [apply Hmi; left; reflexivity |].
  apply (proj2 (similarity_literal_and_single_shared_word
                  (registry_of [a; b]) a b "timeout")).
  - intros x. vm_compute. split.
    + intros [H H']. in_cases H; in_cases H'; subst; congruence.
    + intros ->. split; [right; right; left | left]; reflexivity.
  - reflexivity.
  - vm_compute. lia.
Defined.


(* --------------------------------------------------------------------- *)
(** ** Reporting: the shape of a call *)

Lemma update_at_last {A} (f : A -> A) (l : list A) (x : A) :
  update_at (length l) f (l ++ [x])%list = (l ++ [f x])%list.
Proof. induction l as [| a l IH]; simpl; [reflexivity | now rewrite IH]. Qed.

Lemma nth_last {A} (l : list A) (x d : A) : nth (length l) (l ++ [x])%list d = x.
Proof. induction l as [| a l IH]; simpl; [reflexivity | exact IH]. Qed.

(** [reportError] unfolded along its control flow. *)
Lemma reportError_run (msg cat : string) (ctx : Context) (w : World) :
  reportError msg cat ctx w =
  match detectPattern msg cat with
  | Throw x => (Throw x, w)
  | Normal dp =>
      let e0 := reported_record msg cat ctx dp w in
      match generateTestForError e0 (stored e0 w) with
      | (Normal true, w2) =>
          (Normal (nth (length (r_errors (registry w)))
                       (r_errors (registry (marked (length (r_errors (registry w))) w2)))
                       e0),
           marked (length (r_errors (registry w))) w2)
      | (Normal false, w2) => (Normal e0, w2)
      | (Throw x, w2) => (Throw x, w2)
      end
  end.
Proof.
  unfold reportError, bind at 1 2 3 4, gets at 1 2 3, lift.
  destruct (detectPattern msg cat) as [dp | x]; [| reflexivity].
  cbv zeta. unfold bind at 1, gets at 1.
  fold (reported_record msg cat ctx dp w).
  generalize (reported_record msg cat ctx dp w). intros e0.
  cbv beta iota zeta delta [bind gets modify ret push_error saveRegistry stored marked snd].
  destruct (generateTestForError e0 _) as [[[|] | x] w2]; reflexivity.
Qed.

Lemma reported_record_fields (msg cat : string) (ctx : Context)
      (dp : option DetectedPattern) (w : World) :
  let e0 := reported_record msg cat ctx dp w in
  e_status e0 = "new" /\ e_testGenerated e0 = false /\
  e_message e0 = msg /\ e_category e0 = cat /\ e_detectedPattern e0 = dp.
Proof.
  unfold reported_record.
  destruct dp; destruct (0 <? length (findSimilarErrors (registry w) msg));
    repeat split.
Qed.

Lemma stored_registry (e0 : ErrorRecord) (w : World) :
  r_errors (registry (stored e0 w)) = (r_errors (registry w) ++ [e0])%list /\
  r_generatedTests (registry (stored e0 w)) = r_generatedTests (registry w) /\
  r_patterns (registry (stored e0 w)) = r_patterns (registry w) /\
  files (stored e0 w) = files w.
Proof. repeat split. Qed.

Lemma marked_registry (idx : nat) (w : World) :
  r_errors (registry (marked idx w)) =
    update_at idx mark_generated (r_errors (registry w)) /\
  r_generatedTests (registry (marked idx w)) = r_generatedTests (registry w) /\
  r_patterns (registry (marked idx w)) = r_patterns (registry w) /\
  files (marked idx w) = files w.
Proof. repeat split. Qed.

(** Running a synthesis step, whatever its outcome, leaves the list of
    records and the files as they were. *)
Ltac run_synthesis :=
  cbv beta iota zeta delta
      [generateTestForError generatePlaywrightTest generateESLintCheck
       generatePythonTest push_generatedTest bind gets modify ret throw lift].

Lemma generateTestForError_frame (e : ErrorRecord) (w : World) :
  r_errors (registry (snd (generateTestForError e w))) = r_errors (registry w) /\
  files (snd (generateTestForError e w)) = files w.
Proof.
  run_synthesis.
  destruct (e_detectedPattern e) as [dp |]; [| split; reflexivity].
  destruct (dp_testType dp === "playwright").
  { destruct (playwright_case (dp_type dp) (dp_captures dp)) as [[[n c] |] | x];
      split; reflexivity. }
  destruct (dp_testType dp === "eslint"); [split; reflexivity |].
  destruct (dp_testType dp === "python"); [| split; reflexivity].
  destruct (python_case (dp_type dp) (dp_captures dp)) as [[n c] |];
    split; reflexivity.
Qed.

Lemma mark_generated_consistent (e : ErrorRecord) : status_consistent (mark_generated e).
Proof. split; [split; reflexivity | right; reflexivity]. Qed.

Lemma new_record_consistent (e : ErrorRecord) :
  e_status e = "new" -> e_testGenerated e = false -> status_consistent e.
Proof.
  intros Hs Ht. split; [| left; exact Hs].
  rewrite Hs, Ht. split; discriminate.
Qed.

(** The three ways a call of [reportError] can end, with the record list
    each leaves behind. *)
Lemma reportError_outcomes (msg cat : string) (ctx : Context) (w : World) :
  (exists x, detectPattern msg cat = Throw x /\
             reportError msg cat ctx w = (Throw x, w)) \/
  (exists dp w2 c,
      detectPattern msg cat = Normal dp /\
      let e0 := reported_record msg cat ctx dp w in
      generateTestForError e0 (stored e0 w) = (c, w2) /\
      match c with
      | Normal true =>
          reportError msg cat ctx w
            = (Normal (mark_generated e0), marked (length (r_errors (registry w))) w2) /\
          r_errors (registry (marked (length (r_errors (registry w))) w2))
            = (r_errors (registry w) ++ [mark_generated e0])%list
      | Normal false =>
          reportError msg cat ctx w = (Normal e0, w2) /\
          r_errors (registry w2) = (r_errors (registry w) ++ [e0])%list
      | Throw x =>
          reportError msg cat ctx w = (Throw x, w2) /\
          r_errors (registry w2) = (r_errors (registry w) ++ [e0])%list
      end).
Proof.
  pose proof (reportError_run msg cat ctx w) as Hrun.
  destruct (detectPattern msg cat) as [dp | x]; [right | left; eauto].
  cbv zeta in Hrun.
  set (e0 := reported_record msg cat ctx dp w) in *.
  destruct (generateTestForError e0 (stored e0 w)) as [c w2] eqn:Hgen.
  exists dp, w2, c. split; [reflexivity |]. cbv zeta. fold e0.
  split; [exact Hgen |].
  assert (Herr : r_errors (registry w2) = (r_errors (registry w) ++ [e0])%list).
  { pose proof (proj1 (generateTestForError_frame e0 (stored e0 w))) as Hf.
    rewrite Hgen in Hf. simpl in Hf. rewrite Hf. apply stored_registry. }
  destruct c as [[|] | x]; rewrite Hrun; (split; [| try exact Herr]);
    try reflexivity.
  - rewrite (proj1 (marked_registry _ w2)), Herr, update_at_last, nth_last.
    reflexivity.
  - rewrite (proj1 (marked_registry _ w2)), Herr. apply update_at_last.
Qed.

Lemma reportError_preserves_consistency (msg cat : string) (ctx : Context) (w : World) :
  Forall status_consistent (r_errors (registry w)) ->
  Forall status_consistent (r_errors (registry (snd (reportError msg cat ctx w)))).
Proof.
  intros Hinv.
  destruct (reportError_outcomes msg cat ctx w)
    as [[x [_ Hrun]] | [dp [w2 [c [_ [_ Hc]]]]]].
  - rewrite Hrun. exact Hinv.
  - destruct (reported_record_fields msg cat ctx dp w) as [Hs [Ht _]].
    destruct c as [[|] | x]; destruct Hc as [Hrun Herr]; rewrite Hrun;
      cbn [snd]; rewrite Herr; apply Forall_app;
      (split; [exact Hinv | apply Forall_cons; [| apply Forall_nil]]).
    + apply mark_generated_consistent.
    + now apply new_record_consistent.
    + now apply new_record_consistent.
Qed.

Lemma exportTests_registry (projectPath : string) (w : World) :
  registry (snd (exportTests projectPath w)) = registry w.
Proof.
  cbv beta iota zeta delta
      [exportTests exportPlaywrightTests exportPythonTests read_or_empty
       writeFileSync bind gets modify ret].
  repeat match goal with
         | |- context [if ?b then _ else _] => destruct b
         end; reflexivity.
Qed.

Lemma generateTestForError_disk (e : ErrorRecord) (w : World) :
  disk (snd (generateTestForError e w)) = disk w.
Proof.
  run_synthesis.
  destruct (e_detectedPattern e) as [dp |]; [| reflexivity].
  destruct (dp_testType dp === "playwright").
  { destruct (playwright_case (dp_type dp) (dp_captures dp)) as [[[n c] |] | x];
      reflexivity. }
  destruct (dp_testType dp === "eslint"); [reflexivity |].
  destruct (dp_testType dp === "python"); [| reflexivity].
  destruct (python_case (dp_type dp) (dp_captures dp)) as [[n c] |]; reflexivity.
Qed.

Lemma reportError_preserves_disk_consistency
      (msg cat : string) (ctx : Context) (w : World) :
  Forall status_consistent (r_errors (registry w)) ->
  disk_consistent w ->
  disk_consistent (snd (reportError msg cat ctx w)).
Proof.
  intros Hinv Hdisk.
  pose proof (reportError_preserves_consistency msg cat ctx w Hinv) as Hafter.
  rewrite reportError_run in *.
  destruct (detectPattern msg cat) as [dp | x]; [| exact Hdisk].
  cbv zeta in *. set (e0 := reported_record msg cat ctx dp w) in *.
  pose proof (generateTestForError_disk e0 (stored e0 w)) as Hd.
  pose proof (proj1 (generateTestForError_frame e0 (stored e0 w))) as Hf.
  destruct (generateTestForError e0 (stored e0 w)) as [[[|] | x] w2];
    cbn [snd] in *; unfold disk_consistent.
  - exact Hafter.
  - rewrite Hd. change (Forall status_consistent (r_errors (registry (stored e0 w)))).
    rewrite <- Hf. exact Hafter.
  - rewrite Hd. change (Forall status_consistent (r_errors (registry (stored e0 w)))).
    rewrite <- Hf. exact Hafter.
Qed.

Lemma exportTests_disk (projectPath : string) (w : World) :
  disk (snd (exportTests projectPath w)) = disk w.
Proof.
  cbv beta iota zeta delta
      [exportTests exportPlaywrightTests exportPythonTests read_or_empty
       writeFileSync bind gets modify ret].
  repeat match goal with
         | |- context [if ?b then _ else _] => destruct b
         end; reflexivity.
Qed.

(** In every state the system reaches, status and flag agree on every
    record, in memory and in the registry document. *)
Lemma reachable_status_consistent (w : World) :
  reachable w ->
  Forall status_consistent (r_errors (registry w)) /\ disk_consistent w.
Proof.
  induction 1 as [p ms iso rnd | w ms iso rnd _ IH | w p _ IH
                  | w msg cat ctx _ IH | w path _ IH].
  - split; [constructor | exact I].
  - exact IH.
  - destruct IH as [Hreg Hdisk]. unfold disk_consistent in *.
    cbv beta iota zeta delta [construct loadRegistry bind gets modify ret].
    destruct (disk w) as [| | r] eqn:E; cbn; rewrite ?E; split;
      solve [constructor | exact Hdisk | exact I].
  - destruct IH as [Hreg Hdisk]. split.
    + now apply reportError_preserves_consistency.
    + now apply reportError_preserves_disk_consistency.
  - destruct IH as [Hreg Hdisk]. split.
    + rewrite exportTests_registry. exact Hreg.
    + unfold disk_consistent. rewrite exportTests_disk. exact Hdisk.
Qed.

(** C4. After a call of [reportError] on a registry whose records are
    consistent, every record has status 'test-generated' exactly when its
    flag is set and no status other than 'new' or 'test-generated'; the
    earlier records are untouched, so a record that is 'test-generated'
    stays so; and the reported record moves from 'new' to 'test-generated'
    exactly when its synthesis attempt returns true. *)
Theorem status_tracks_testGenerated (msg cat : string) (ctx : Context) (w : World) :
  Forall status_consistent (r_errors (registry w)) ->
  let out := fst (reportError msg cat ctx w) in
  let w' := snd (reportError msg cat ctx w) in
  Forall status_consistent (r_errors (registry w')) /\
  (exists newer,
      r_errors (registry w') = (r_errors (registry w) ++ newer)%list /\
      length newer <= 1) /\
  (forall e, out = Normal e ->
     exists dp e0 b w2,
       detectPattern msg cat = Normal dp /\
       e0 = reported_record msg cat ctx dp w /\
       e_status e0 = "new" /\ e_testGenerated e0 = false /\
       generateTestForError e0 (stored e0 w) = (Normal b, w2) /\
       e = (if b then mark_generated e0 else e0) /\
       (e_status e = "test-generated" <-> b = true) /\
       r_errors (registry w') = (r_errors (registry w) ++ [e])%list).
Proof.
  intros Hinv out w'. subst out w'.
  split; [now apply reportError_preserves_consistency |].
  destruct (reportError_outcomes msg cat ctx w)
    as [[x [_ Hrun]] | [dp [w2 [c [Hdet [Hgen Hc]]]]]].
  - rewrite Hrun. cbn [fst snd]. split.
    + exists []. rewrite app_nil_r. split; [reflexivity | simpl; lia].
    + discriminate.
  - destruct (reported_record_fields msg cat ctx dp w) as [Hs [Ht _]].
    destruct c as [[|] | x]; destruct Hc as [Hrun Herr]; rewrite Hrun;
      cbn [fst snd]; rewrite Herr; (split; [eexists; split; [reflexivity | simpl; lia] |]).
    + intros e [= <-]. exists dp, (reported_record msg cat ctx dp w), true, w2.
      repeat split; auto.
    + intros e [= <-]. exists dp, (reported_record msg cat ctx dp w), false, w2.
      repeat split; auto; rewrite Hs; discriminate.
    + discriminate.
Qed.

Lemma status_tracks_testGenerated_witness :
  Forall status_consistent (r_errors (registry sample_world)) /\
  Forall status_consistent
         (r_errors (registry (snd (reportError "fooBar is not defined" "js-runtime" []
                                               sample_world)))).
Proof.
  assert (H : Forall status_consistent (r_errors (registry sample_world)))
    by exact (Forall_nil _).
  split; [exact H |].
  exact (proj1 (status_tracks_testGenerated "fooBar is not defined" "js-runtime" []
                                            sample_world H)).
Defined.

(* --------------------------------------------------------------------- *)
(** ** Detection and synthesis on the literal cases *)

Example split_keeps_empty_fields :
  split_nonword ".a..b." = [""; "a"; "b"; ""] /\ split_nonword "" = [""].
Proof. split; reflexivity. Qed.

Example significant_words_of_literal :
  significant_words MSG_INIT = ["foobar"; "defined"; "init"].
Proof. reflexivity. Qed.

Example detect_use_before_initialization :
  detectPattern "Cannot access 'x' before initialization" "js-runtime" =
    Normal (Some (mkDetected "temporalDeadZone" "Cannot access 'x' before initialization"
                             [Some "x"] "playwright")).
Proof. vm_compute. reflexivity. Qed.

Example detect_missing_module :
  detectPattern "ModuleNotFoundError: No module named 'requests'" "python-import" =
    Normal (Some (mkDetected "moduleName" "ModuleNotFoundError: No module named 'requests'"
                             [Some "requests"] "python")).
Proof. vm_compute. reflexivity. Qed.

(** Greedy repetition gives characters back until the rest matches, and
    a group that takes no part in the match stays undefined. *)
Example detect_backtracks :
  str_match "at SIGSEGV in QAccessible::x, QAccessible::y!"
            (Seq (Lit "SIGSEGV") (Seq (Star Dot) (Lit "QAccessible")))
    = Some ("SIGSEGV in QAccessible::x, QAccessible", []) /\
  str_match "ab" (Alt (Group 0 (Lit "x")) (Group 1 (Lit "b")))
    = Some ("b", [None; Some "b"]).
Proof. split; vm_compute; reflexivity. Qed.

(** C8. For "fooBar is not defined" under 'js-runtime' the detector
    returns the 'variableName' rule with "fooBar" as its first capture. *)
Theorem detect_undefined_identifier :
  detectPattern "fooBar is not defined" "js-runtime" =
    Normal (Some (mkDetected "variableName" "fooBar is not defined"
                             [Some "fooBar"] "playwright")) /\
  (forall p, detectPattern "fooBar is not defined" "js-runtime" = Normal (Some p) ->
             dp_type p = "variableName" /\
             first_capture (dp_captures p) = Some "fooBar").
Proof.
  assert (H : detectPattern "fooBar is not defined" "js-runtime" =
              Normal (Some (mkDetected "variableName" "fooBar is not defined"
                                       [Some "fooBar"] "playwright")))
    by (vm_compute; reflexivity).
  split; [exact H |].
  intros p Hp. rewrite H in Hp. injection Hp as <-. split; reflexivity.
Qed.

(** A record without a pattern, or with a pattern of a test type other
    than the three automated ones, is left to manual work. *)
Lemma generateTestForError_manual (e : ErrorRecord) (w : World) :
  match e_detectedPattern e with
  | None => True
  | Some dp =>
      (dp_testType dp === "playwright") = false /\
      (dp_testType dp === "eslint") = false /\
      (dp_testType dp === "python") = false
  end ->
  generateTestForError e w = (Normal false, w).
Proof.
  unfold generateTestForError.
  destruct (e_detectedPattern e) as [dp |]; [| reflexivity].
  intros [-> [-> ->]]. reflexivity.
Qed.

(** C6. "Segmentation fault" under 'qt-crash' is recognised as
    'segfault', the synthesis attempt returns false and adds nothing to
    [generatedTests], and the record keeps [testGenerated = false] and
    status 'new'. *)
Theorem segmentation_fault_is_manual_only (ctx : Context) (w : World) :
  let dp := mkDetected "segfault" "Segmentation fault" [] "manual" in
  let e0 := reported_record "Segmentation fault" "qt-crash" ctx (Some dp) w in
  detectPattern "Segmentation fault" "qt-crash" = Normal (Some dp) /\
  generateTestForError e0 (stored e0 w) = (Normal false, stored e0 w) /\
  reportError "Segmentation fault" "qt-crash" ctx w = (Normal e0, stored e0 w) /\
  r_generatedTests (registry (stored e0 w)) = r_generatedTests (registry w) /\
  r_errors (registry (stored e0 w)) = (r_errors (registry w) ++ [e0])%list /\
  e_detectedPattern e0 = Some dp /\
  e_testGenerated e0 = false /\
  e_status e0 = "new".
Proof.
  intros dp e0.
  assert (Hdet : detectPattern "Segmentation fault" "qt-crash" = Normal (Some dp))
    by (vm_compute; reflexivity).
  destruct (reported_record_fields "Segmentation fault" "qt-crash" ctx (Some dp) w)
    as [Hs [Ht [_ [_ Hp]]]]. fold e0 in Hs, Ht, Hp.
  assert (Hgen : generateTestForError e0 (stored e0 w) = (Normal false, stored e0 w)).
  { apply generateTestForError_manual. rewrite Hp. repeat split. }
  split; [exact Hdet |]. split; [exact Hgen |]. split.
  - rewrite reportError_run, Hdet. cbv zeta. fold e0. rewrite Hgen. reflexivity.
  - repeat split; try assumption; apply stored_registry.
Qed.

(* --------------------------------------------------------------------- *)
(** ** Categories outside the taxonomy *)

(** A category that is neither a row of the table nor a property every
    object inherits: the record is stored without a pattern, stays 'new',
    and the call returns it. *)
Lemma unlisted_category_round_trip (msg cat : string) (ctx : Context) (w : World) :
  get_category cat = Undefined ->
  let e0 := reported_record msg cat ctx None w in
  reportError msg cat ctx w = (Normal e0, stored e0 w) /\
  r_errors (registry (stored e0 w)) = (r_errors (registry w) ++ [e0])%list /\
  e_detectedPattern e0 = None /\
  e_testGenerated e0 = false /\
  e_status e0 = "new".
Proof.
  intros Hcat e0.
  assert (Hdet : detectPattern msg cat = Normal None)
    by (unfold detectPattern; now rewrite Hcat).
  destruct (reported_record_fields msg cat ctx None w) as [Hs [Ht [_ [_ Hp]]]].
  fold e0 in Hs, Ht, Hp.
  split.
  - rewrite reportError_run, Hdet. cbv zeta. fold e0.
    rewrite generateTestForError_manual; [reflexivity | now rewrite Hp].
  - repeat split; try assumption; apply stored_registry.
Qed.

Lemma totally_unrecognized_round_trip (msg : string) (ctx : Context) (w : World) :
  exists e w',
    reportError msg "totally-unrecognized" ctx w = (Normal e, w') /\
    In e (r_errors (registry w')) /\
    e_detectedPattern e = None /\ e_testGenerated e = false /\ e_status e = "new".
Proof.
  destruct (unlisted_category_round_trip msg "totally-unrecognized" ctx w eq_refl)
    as [Hrun [Herr [Hp [Ht Hs]]]].
  eexists. eexists. split; [exact Hrun |].
  split; [rewrite Herr; apply in_or_app; right; now left | auto].
Qed.

(** C5, at the category "constructor": the name is no row of the
    taxonomy, the property read finds the inherited [Object] function, the
    loop over its missing [patterns] throws, and [reportError] passes the
    exception to its caller with nothing stored. *)
Theorem inherited_key_category_throws (msg : string) (ctx : Context) (w : World) :
  own_property ERROR_CATEGORIES "constructor" = None /\
  reportError msg "constructor" ctx w =
    (Throw (TypeError "categoryConfig.patterns is not iterable"), w).
Proof.
  split; [reflexivity |].
  rewrite reportError_run. reflexivity.
Qed.

(* --------------------------------------------------------------------- *)
(** ** Fragment names *)

Lemma first_match_testType (msg testType : string) (patterns : list Pattern)
      (p : DetectedPattern) :
  first_match msg testType patterns = Some p -> dp_testType p = testType.
Proof.
  induction patterns as [| pat rest IH]; simpl; [discriminate |].
  destruct (str_match msg (p_regex pat)) as [[m0 caps] |]; [| exact IH].
  intros [= <-]. reflexivity.
Qed.

(** The test type of a detected pattern is the test type of its category. *)
Lemma detectPattern_testType (m1 m2 cat : string) (p1 p2 : DetectedPattern) :
  detectPattern m1 cat = Normal (Some p1) ->
  detectPattern m2 cat = Normal (Some p2) ->
  dp_testType p1 = dp_testType p2.
Proof.
  unfold detectPattern.
  destruct (get_category cat) as [cfg | |]; try discriminate.
  intros [= H1] [= H2].
  apply first_match_testType in H1. apply first_match_testType in H2.
  congruence.
Qed.

Lemma playwright_case_first_capture (type : string) (c1 c2 : captures) :
  first_capture c1 = first_capture c2 ->
  playwright_case type c1 = playwright_case type c2.
Proof. unfold playwright_case. intros ->. reflexivity. Qed.

Lemma python_case_first_capture (type : string) (c1 c2 : captures) :
  first_capture c1 = first_capture c2 ->
  python_case type c1 = python_case type c2.
Proof. unfold python_case. intros ->. reflexivity. Qed.

Lemma app_singleton_absurd {A} (l : list A) (x : A) : l <> (l ++ [x])%list.
Proof.
  intros H. apply (f_equal (@length A)) in H.
  rewrite length_app in H. simpl in H. lia.
Qed.

(** When a synthesis step appends a fragment, its name is the one the
    [switch] of the generator for the pattern's test type computes. *)
Lemma synthesis_appends (e : ErrorRecord) (w : World) (t : GeneratedTest) :
  r_generatedTests (registry (snd (generateTestForError e w))) =
    (r_generatedTests (registry w) ++ [t])%list ->
  exists dp,
    e_detectedPattern e = Some dp /\
    ((dp_testType dp = "playwright" /\
      exists code, playwright_case (dp_type dp) (dp_captures dp)
                   = Normal (Some (t_testName t, code))) \/
     (dp_testType dp = "python" /\
      exists code, python_case (dp_type dp) (dp_captures dp)
                   = Some (t_testName t, code))).
Proof.
  run_synthesis.
  destruct (e_detectedPattern e) as [dp |];
    [| intros H; now apply app_singleton_absurd in H].
  intros H. exists dp. split; [reflexivity |].
  destruct (dp_testType dp === "playwright") eqn:Epw.
  { apply String.eqb_eq in Epw. left. split; [exact Epw |].
    destruct (playwright_case (dp_type dp) (dp_captures dp)) as [[[n c] |] | x];
      cbn in H; try (now apply app_singleton_absurd in H).
    apply app_inv_head in H. injection H as <-. now exists c. }
  destruct (dp_testType dp === "eslint");
    [cbn in H; now apply app_singleton_absurd in H |].
  destruct (dp_testType dp === "python") eqn:Epy;
    [| cbn in H; now apply app_singleton_absurd in H].
  apply String.eqb_eq in Epy. right. split; [exact Epy |].
  destruct (python_case (dp_type dp) (dp_captures dp)) as [[n c] |];
    cbn in H; try (now apply app_singleton_absurd in H).
  apply app_inv_head in H. injection H as <-. now exists c.
Qed.

(** C9. Two records of one category whose detected patterns have the
    same extraction kind and the same first capture get fragments of the
    same name, in whatever registries they are synthesised. *)
Theorem fragment_names_are_deterministic
        (e1 e2 : ErrorRecord) (p1 p2 : DetectedPattern) (w1 w2 : World)
        (t1 t2 : GeneratedTest) :
  well_formed_record e1 -> well_formed_record e2 ->
  e_category e1 = e_category e2 ->
  e_detectedPattern e1 = Some p1 -> e_detectedPattern e2 = Some p2 ->
  dp_type p1 = dp_type p2 ->
  first_capture (dp_captures p1) = first_capture (dp_captures p2) ->
  r_generatedTests (registry (snd (generateTestForError e1 w1))) =
    (r_generatedTests (registry w1) ++ [t1])%list ->
  r_generatedTests (registry (snd (generateTestForError e2 w2))) =
    (r_generatedTests (registry w2) ++ [t2])%list ->
  t_testName t1 = t_testName t2.
Proof.
  unfold well_formed_record.
  intros Hwf1 Hwf2 Hcat Hp1 Hp2 Htype Hcap Hgen1 Hgen2.
  rewrite Hp1 in Hwf1. rewrite Hp2, <- Hcat in Hwf2.
  pose proof (detectPattern_testType _ _ _ _ _ Hwf1 Hwf2) as Htt.
  apply synthesis_appends in Hgen1. apply synthesis_appends in Hgen2.
  destruct Hgen1 as [d1 [Hd1 Hcase1]]. destruct Hgen2 as [d2 [Hd2 Hcase2]].
  rewrite Hp1 in Hd1. rewrite Hp2 in Hd2.
  injection Hd1 as <-. injection Hd2 as <-.
  destruct Hcase1 as [[Hk1 [c1 Hc1]] | [Hk1 [c1 Hc1]]];
    destruct Hcase2 as [[Hk2 [c2 Hc2]] | [Hk2 [c2 Hc2]]];
    try (rewrite Hk1, Hk2 in Htt; discriminate).
  - rewrite Htype, (playwright_case_first_capture _ _ _ Hcap), Hc2 in Hc1.
    now injection Hc1.
  - rewrite Htype, (python_case_first_capture _ _ _ Hcap), Hc2 in Hc1.
    now injection Hc1.
Qed.

(** The record a call of [reportError] returns is well formed. *)
Lemma reportError_returns_well_formed (msg cat : string) (ctx : Context) (w : World)
      (e : ErrorRecord) :
  fst (reportError msg cat ctx w) = Normal e -> well_formed_record e.
Proof.
  destruct (reportError_outcomes msg cat ctx w)
    as [[x [_ Hrun]] | [dp [w2 [c [Hdet [_ Hc]]]]]].
  - rewrite Hrun. discriminate.
  - destruct (reported_record_fields msg cat ctx dp w) as [_ [_ [Hm [Hcat Hp]]]].
    destruct c as [[|] | x]; destruct Hc as [Hrun _]; rewrite Hrun; cbn [fst];
      try discriminate; intros [= <-]; unfold well_formed_record; cbn;
      rewrite ?Hm, ?Hcat, ?Hp; exact Hdet.
Qed.

(** The category matters: the kind 'variableName' with the capture "x"
    names a browser fragment in one way and an interpreter fragment in
    another. *)
Remark fragment_name_depends_on_test_type :
  (exists code, playwright_case "variableName" [Some "x"]
                = Normal (Some ("variable_x_accessible", code))) /\
  (exists code, python_case "variableName" [Some "x"]
                = Some ("test_variable_x_defined", code)).
Proof. split; eexists; reflexivity. Qed.

Lemma fragment_names_are_deterministic_witness :
  let p1 := mkDetected "variableName" "fooBar is not defined" [Some "fooBar"] "playwright" in
  let e1 := reported_record "fooBar is not defined" "js-runtime" [] (Some p1) sample_world in
  let e2 := reported_record MSG_INIT "js-runtime" [("file", "init.js")] (Some p1)
                            after_first_export in
  well_formed_record e1 /\ well_formed_record e2 /\
  t_testName (synthesized_last e1 sample_world) = "variable_fooBar_accessible" /\
  t_testName (synthesized_last e1 sample_world)
    = t_testName (synthesized_last e2 after_first_export).
Proof.
  intros p1 e1 e2.
  assert (Hwf1 : well_formed_record e1) by (vm_compute; reflexivity).
  assert (Hwf2 : well_formed_record e2) by (vm_compute; reflexivity).
  split; [exact Hwf1 |]. split; [exact Hwf2 |]. split; [vm_compute; reflexivity |].
  apply (fragment_names_are_deterministic e1 e2 p1 p1 sample_world after_first_export);
    try assumption; try reflexivity; vm_compute; reflexivity.
Defined.

(* --------------------------------------------------------------------- *)
(** ** Exporter *)

(** What one export of the browser tests leaves in the target file: the
    file as it was when no fragment is new, and otherwise the envelope
    around the new fragments alone. *)
Lemma exportPlaywrightTests_writes (projectPath : string) (tests : list GeneratedTest)
      (w : World) :
  let target := path_join projectPath PLAYWRIGHT_TARGET in
  let newTests :=
    filter (fun t => negb (includes (file_text w target) (t_testName t))) tests in
  files (snd (exportPlaywrightTests projectPath tests w)) target =
    match newTests with
    | [] => files w target
    | _ :: _ => Some (playwright_file (join nl (map t_testCode newTests)))
    end.
Proof.
  cbv beta iota zeta delta
      [exportPlaywrightTests read_or_empty writeFileSync bind gets modify ret file_text].
  destruct (filter _ tests) as [| t rest]; [reflexivity |].
  cbn [length Nat.eqb snd files set_files]. now rewrite String.eqb_refl.
Qed.

Lemma exportPythonTests_writes (projectPath : string) (tests : list GeneratedTest)
      (w : World) :
  let target := path_join projectPath PYTHON_TARGET in
  let newTests :=
    filter (fun t => negb (includes (file_text w target) (t_testName t))) tests in
  files (snd (exportPythonTests projectPath tests w)) target =
    match newTests with
    | [] => files w target
    | _ :: _ => Some (python_file (join nl (map t_testCode newTests)))
    end.
Proof.
  cbv beta iota zeta delta
      [exportPythonTests read_or_empty writeFileSync bind gets modify ret file_text].
  destruct (filter _ tests) as [| t rest]; [reflexivity |].
  cbn [length Nat.eqb snd files set_files]. now rewrite String.eqb_refl.
Qed.

(** C1, at a session of two reports: the target file holds the first
    fragment from an earlier export; one more export writes a file with the
    second fragment alone, and the export after that one writes a file with
    the first fragment alone, so exporting twice does not end where
    exporting once does. *)
Theorem export_twice_differs_from_export_once :
  map t_testName (r_generatedTests (registry after_second_report))
    = ["variable_fooBar_accessible"; "function_doIt_exists"] /\
  includes (file_text after_second_report target_file) "variable_fooBar_accessible" = true /\
  includes (file_text after_second_report target_file) "function_doIt_exists" = false /\
  includes (file_text exported_once target_file) "variable_fooBar_accessible" = false /\
  includes (file_text exported_once target_file) "function_doIt_exists" = true /\
  includes (file_text exported_twice target_file) "variable_fooBar_accessible" = true /\
  includes (file_text exported_twice target_file) "function_doIt_exists" = false /\
  files exported_twice target_file <> files exported_once target_file.
Proof.
  repeat (split; [vm_compute; reflexivity |]).
  intros H.
  assert (Hne : (file_text exported_twice target_file
                 =? file_text exported_once target_file)%string = false)
    by (vm_compute; reflexivity).
  apply String.eqb_neq in Hne. apply Hne. unfold file_text. now rewrite H.
Qed.

(** C2, at two target files.  In the session above the file holds the
    earlier export; the next export skips the first fragment, whose name is
    in the file, and writes the second, but the file it leaves contains
    neither the earlier text nor the first fragment.  The same happens to a
    line a person wrote into the file. *)
Theorem export_replaces_existing_text :
  (includes (file_text after_second_report target_file)
            "variable_fooBar_accessible" = true /\
   includes (file_text after_second_report target_file)
            "function_doIt_exists" = false /\
   includes (file_text exported_once target_file)
            "regression: function_doIt_exists" = true /\
   includes (file_text exported_once target_file)
            "variable_fooBar_accessible" = false /\
   includes (file_text exported_once target_file)
            (file_text after_second_report target_file) = false) /\
  (file_text with_hand_written_target target_file = HAND_WRITTEN /\
   includes HAND_WRITTEN "variable_fooBar_accessible" = true /\
   includes (file_text exported_over_hand_written target_file)
            "regression: function_doIt_exists" = true /\
   includes (file_text exported_over_hand_written target_file) HAND_WRITTEN = false).
Proof.
  repeat split; vm_compute; reflexivity.
Qed.

(* ===================================================================== *)
(** * Further properties of the program *)
(* ===================================================================== *)

(* --------------------------------------------------------------------- *)
(** ** Substrings *)
Lemma list_ascii_of_string_app (a b : string) :
  list_ascii_of_string (a ++ b) = (list_ascii_of_string a ++ list_ascii_of_string b)%list.
Proof. induction a as [| c a IH]; simpl; [reflexivity | now rewrite IH]. Qed.

Lemma string_of_list_ascii_app (a b : list ascii) :
  string_of_list_ascii (a ++ b)%list = string_of_list_ascii a ++ string_of_list_ascii b.
Proof. induction a as [| c a IH]; simpl; [reflexivity | now rewrite IH]. Qed.

Lemma string_app_assoc (a b c : string) : (a ++ b) ++ c = a ++ b ++ c.
Proof. induction a as [| x a IH]; simpl; [reflexivity | now rewrite IH]. Qed.

Lemma string_app_nil_r (a : string) : a ++ "" = a.
Proof. induction a as [| x a IH]; simpl; [reflexivity | now rewrite IH]. Qed.

Lemma startsWith_spec (s p : string) :
  startsWith s p = true <-> exists b, s = p ++ b.
Proof.
  revert s. induction p as [| a p IH]; intros s; simpl.
  - split; [intros _; now exists s | intros _; destruct s; reflexivity].
  - destruct s as [| b s]; simpl.
    + split; [discriminate | intros [x Hx]; discriminate].
    + rewrite andb_true_iff, Ascii.eqb_eq, IH. split.
      * intros [-> [x ->]]. now exists x.
      * intros [x [= -> ->]]. split; [reflexivity | now exists x].
Qed.

Lemma includes_spec (s p : string) :
  includes s p = true <-> exists a b, s = a ++ p ++ b.
Proof.
  induction s as [| c s IH].
  - destruct p as [| x p]; simpl.
    + split; [intros _; now exists "", "" | reflexivity].
    + split; [discriminate | intros [a [b H]]; destruct a; discriminate].
  - cbn [includes]. rewrite orb_true_iff, startsWith_spec, IH. split.
    + intros [[b Hb] | [a [b Hab]]].
      * now exists "", b.
      * exists (String c a), b. simpl. now rewrite Hab.
    + intros [a [b H]]. destruct a as [| x a]; simpl in H.
      * left. now exists b.
      * right. injection H as -> ->. now exists a, b.
Qed.

Lemma includes_refl (s : string) : includes s s = true.
Proof. apply includes_spec. exists "", "". simpl. now rewrite string_app_nil_r. Qed.

Lemma includes_trans (s m p : string) :
  includes s m = true -> includes m p = true -> includes s p = true.
Proof.
  rewrite !includes_spec. intros [a [b ->]] [c [d ->]].
  exists (a ++ c), (d ++ b). now rewrite !string_app_assoc.
Qed.

Lemma includes_app_l (a b p : string) : includes a p = true -> includes (a ++ b) p = true.
Proof.
  rewrite !includes_spec. intros [x [y ->]]. exists x, (y ++ b).
  now rewrite !string_app_assoc.
Qed.

Lemma includes_app_r (a b p : string) : includes b p = true -> includes (a ++ b) p = true.
Proof.
  rewrite !includes_spec. intros [x [y ->]]. exists (a ++ x), y.
  now rewrite !string_app_assoc.
Qed.


(* --------------------------------------------------------------------- *)
(** ** What a match consists of *)

Lemma extends_captures_refl cs : extends_captures cs cs.
Proof. split; auto. Qed.

Lemma extends_captures_trans a b c :
  extends_captures a b -> extends_captures b c -> extends_captures a c.
Proof. intros [L1 H1] [L2 H2]. split; [congruence | auto]. Qed.

Lemma is_suffix_refl s : is_suffix s s.
Proof. now exists []. Qed.

Lemma is_suffix_trans a b c : is_suffix a b -> is_suffix b c -> is_suffix a c.
Proof. intros [m1 ->] [m2 ->]. exists (m2 ++ m1)%list. now rewrite app_assoc. Qed.

Lemma is_suffix_tail x s : is_suffix s (x :: s).
Proof. now exists [x]. Qed.

Lemma set_capture_length i v cs : length (set_capture i v cs) = length cs.
Proof.
  revert i. induction cs as [| c cs IH]; intros i; [destruct i; reflexivity |].
  destruct i; simpl; [reflexivity | now rewrite IH].
Qed.

Lemma set_capture_captured i v cs : i < length cs -> captured i (set_capture i v cs).
Proof.
  unfold captured. revert i. induction cs as [| c cs IH]; intros i Hi; simpl in Hi; [lia |].
  destruct i; simpl; [discriminate | apply IH; lia].
Qed.

Lemma set_capture_extends i v cs : extends_captures cs (set_capture i v cs).
Proof.
  split; [apply set_capture_length |].
  unfold captured. revert i. induction cs as [| c cs IH]; intros i j Hj;
    [destruct i; exact Hj |].
  destruct i; destruct j; simpl in *; try assumption; try discriminate.
  now apply IH.
Qed.

Section MatcherInvariant.
Context {R : Type}.

Lemma star_loop_reaches (step : list ascii -> captures -> @cont R -> option R) k x :
  (forall s cs k', step s cs k' = Some x -> reaches k' x s cs []) ->
  forall fuel s cs, star_loop step k fuel s cs = Some x -> reaches k x s cs [].
Proof.
  intros Hstep fuel. induction fuel as [| fuel IH]; intros s cs H; simpl in H.
  - exists s, cs. repeat split; auto using is_suffix_refl. intros i [].
  - destruct (step s cs _) as [y |] eqn:E.
    + injection H as ->. apply Hstep in E.
      destruct E as [s1 [cs1 [Hk [Hsuf [Hext _]]]]].
      destruct (length s1 <? length s); [| discriminate].
      apply IH in Hk. destruct Hk as [s2 [cs2 [Hk2 [Hsuf2 [Hext2 _]]]]].
      exists s2, cs2. split; [exact Hk2 |].
      split; [eapply is_suffix_trans; eauto |].
      split; [eapply extends_captures_trans; eauto | intros i []].
    + exists s, cs. repeat split; auto using is_suffix_refl. intros i [].
Qed.

Lemma reaches_weaken (k : @cont R) x s cs sure :
  reaches k x s cs sure -> reaches k x s cs [].
Proof.
  intros [s' [cs' [Hk [Hs [He _]]]]]. exists s', cs'. repeat split; try apply He; auto.
  intros i [].
Qed.

Lemma rmatch_reaches (r : regex) :
  forall s cs (k : @cont R) x,
    rmatch r s cs k = Some x -> reaches k x s cs (sure_groups r).
Proof.
  induction r as [| c | | | r1 IH1 r2 IH2 | r1 IH1 r2 IH2 | r IH | i r IH];
    intros s cs k x H; simpl in H.
  - exists s, cs. repeat split; auto using is_suffix_refl. intros i [].
  - destruct s as [| a s]; [discriminate |]. destruct (Ascii.eqb a c); [| discriminate].
    exists s, cs. repeat split; auto using is_suffix_tail. intros i [].
  - destruct s as [| a s]; [discriminate |]. destruct (isLineTerminator a); [discriminate |].
    exists s, cs. repeat split; auto using is_suffix_tail. intros i [].
  - destruct s as [| a s]; [discriminate |]. destruct (isWordChar a); [| discriminate].
    exists s, cs. repeat split; auto using is_suffix_tail. intros i [].
  - apply IH1 in H. destruct H as [s1 [cs1 [Hk1 [Hs1 [He1 Hsure1]]]]].
    apply IH2 in Hk1. destruct Hk1 as [s2 [cs2 [Hk2 [Hs2 [He2 Hsure2]]]]].
    exists s2, cs2. split; [exact Hk2 |].
    split; [eapply is_suffix_trans; eauto |].
    split; [eapply extends_captures_trans; eauto |].
    simpl. intros i Hi Hlen. apply in_app_or in Hi. destruct Hi as [Hi | Hi].
    + apply He2. now apply Hsure1.
    + apply Hsure2; [exact Hi |]. destruct He1 as [L _]. now rewrite L.
  - destruct (rmatch r1 s cs k) as [y |] eqn:E.
    + injection H as ->. apply IH1 in E. now apply reaches_weaken in E.
    + apply IH2 in H. now apply reaches_weaken in H.
  - apply (star_loop_reaches (rmatch r) k x) in H; [exact H |].
    intros s0 cs0 k' Hk'. apply IH in Hk'. now apply reaches_weaken in Hk'.
  - apply IH in H. destruct H as [s1 [cs1 [Hk1 [Hs1 [He1 Hsure1]]]]].
    exists s1, (set_capture i (consumed s s1) cs1). split; [exact Hk1 |].
    split; [exact Hs1 |].
    split; [eapply extends_captures_trans; [exact He1 | apply set_capture_extends] |].
    simpl. intros j [<- | Hj] Hlen.
    + apply set_capture_captured. destruct He1 as [L _]. now rewrite L.
    + apply set_capture_extends. now apply Hsure1.
Qed.

End MatcherInvariant.

Lemma consumed_suffix (mid s' : list ascii) :
  consumed (mid ++ s')%list s' = string_of_list_ascii mid.
Proof.
  unfold consumed. rewrite length_app.
  replace (length mid + length s' - length s') with (length mid + 0) by lia.
  rewrite firstn_app_2. simpl. now rewrite app_nil_r.
Qed.

Lemma match_at_sound (r : regex) (s : list ascii) (m : string) (caps : captures) :
  match_at r s = Some (m, caps) ->
  (exists s', s = (list_ascii_of_string m ++ s')%list) /\
  length caps = ngroups r /\
  (forall i, In i (sure_groups r) -> i < ngroups r -> captured i caps).
Proof.
  unfold match_at. intros H. apply rmatch_reaches in H.
  destruct H as [s' [cs' [Hk [[mid ->] [[L _] Hsure]]]]].
  injection Hk as <- <-. rewrite consumed_suffix, repeat_length in *.
  split; [| split; [exact L | exact Hsure]].
  exists s'. now rewrite list_ascii_of_string_of_list_ascii.
Qed.

Lemma exec_from_sound (r : regex) (s : list ascii) (m : string) (caps : captures) :
  exec_from r s = Some (m, caps) ->
  (exists pre post, s = (pre ++ list_ascii_of_string m ++ post)%list) /\
  length caps = ngroups r /\
  (forall i, In i (sure_groups r) -> i < ngroups r -> captured i caps).
Proof.
  induction s as [| a s IH]; simpl; intros H.
  - destruct (match_at r []) as [[m' c'] |] eqn:E; [| discriminate].
    injection H as -> ->. apply match_at_sound in E.
    destruct E as [[s' Hs] Hrest]. split; [now exists [], s' | exact Hrest].
  - destruct (match_at r (a :: s)) as [[m' c'] |] eqn:E.
    + injection H as -> ->. apply match_at_sound in E.
      destruct E as [[s' Hs] Hrest]. split; [now exists [], s' | exact Hrest].
    + apply IH in H. destruct H as [[pre [post ->]] Hrest].
      split; [now exists (a :: pre), post | exact Hrest].
Qed.

Lemma str_match_sound (msg : string) (r : regex) (m : string) (caps : captures) :
  str_match msg r = Some (m, caps) ->
  includes msg m = true /\
  length caps = ngroups r /\
  (forall i, In i (sure_groups r) -> i < ngroups r -> captured i caps).
Proof.
  unfold str_match. intros H. apply exec_from_sound in H.
  destruct H as [[pre [post Hs]] Hrest]. split; [| exact Hrest].
  apply includes_spec.
  exists (string_of_list_ascii pre), (string_of_list_ascii post).
  rewrite <- (string_of_list_ascii_of_string msg), Hs.
  now rewrite !string_of_list_ascii_app, string_of_list_ascii_of_string.
Qed.


(* --------------------------------------------------------------------- *)
(** ** Detection in general *)

Lemma first_match_spec (msg tt : string) (ps : list Pattern) (p : DetectedPattern) :
  first_match msg tt ps = Some p <->
  exists pre pat post m caps,
    ps = (pre ++ pat :: post)%list /\ Forall (no_match msg) pre /\
    str_match msg (p_regex pat) = Some (m, caps) /\
    p = mkDetected (p_extract pat) m caps tt.
Proof.
  induction ps as [| q ps IH]; simpl.
  - split; [discriminate |]. intros [pre [pat [post [m [caps [H _]]]]]].
    now destruct pre.
  - destruct (str_match msg (p_regex q)) as [[m0 c0] |] eqn:E.
    + split.
      * intros [= <-]. exists [], q, ps, m0, c0. repeat split; auto.
      * intros [pre [pat [post [m [caps [Hps [Hpre [Hm ->]]]]]]]].
        destruct pre as [| q' pre]; simpl in Hps; inversion Hps; subst.
        -- rewrite E in Hm. now inversion Hm.
        -- inversion Hpre as [| ? ? Hq _]. unfold no_match in Hq. congruence.
    + rewrite IH. split.
      * intros [pre [pat [post [m [caps [-> [Hpre [Hm ->]]]]]]]].
        exists (q :: pre), pat, post, m, caps.
        split; [reflexivity |]. split; [constructor; [exact E | exact Hpre] |].
        split; [exact Hm | reflexivity].
      * intros [pre [pat [post [m [caps [Hps [Hpre [Hm ->]]]]]]]].
        destruct pre as [| q' pre]; simpl in Hps; inversion Hps; subst.
        -- congruence.
        -- exists pre, pat, post, m, caps. repeat split; auto. now inversion Hpre.
Qed.

Lemma first_match_none (msg tt : string) (ps : list Pattern) :
  first_match msg tt ps = None <-> Forall (no_match msg) ps.
Proof.
  induction ps as [| q ps IH]; simpl.
  - split; [constructor | reflexivity].
  - destruct (str_match msg (p_regex q)) as [[m0 c0] |] eqn:E.
    + split; [discriminate |]. intros H. inversion H as [| ? ? Hq _].
      unfold no_match in Hq. congruence.
    + rewrite IH. split; [now constructor | now inversion 1].
Qed.

Lemma get_category_own (cat : string) (cfg : CategoryConfig) :
  own_property ERROR_CATEGORIES cat = Some cfg -> get_category cat = OwnConfig cfg.
Proof. unfold get_category. now intros ->. Qed.

Lemma own_property_In (tbl : list (string * CategoryConfig)) (key : string)
      (cfg : CategoryConfig) :
  own_property tbl key = Some cfg -> In (key, cfg) tbl.
Proof.
  induction tbl as [| [k c] tbl IH]; simpl; [discriminate |].
  destruct (String.eqb k key) eqn:E.
  - apply String.eqb_eq in E. intros [= ->]. left. now subst.
  - intros H. right. now apply IH.
Qed.

(** X1. For a category of the taxonomy the detector returns the first
    rule, in declared order, that matches the message, with that rule's
    kind, match and captures and the category's test type; it returns
    nothing exactly when no rule matches. *)
Theorem detection_takes_first_matching_rule (msg cat : string) (cfg : CategoryConfig) :
  own_property ERROR_CATEGORIES cat = Some cfg ->
  (forall p,
      detectPattern msg cat = Normal (Some p) <->
      exists pre pat post m caps,
        c_patterns cfg = (pre ++ pat :: post)%list /\
        Forall (no_match msg) pre /\
        str_match msg (p_regex pat) = Some (m, caps) /\
        p = mkDetected (p_extract pat) m caps (c_testType cfg)) /\
  (detectPattern msg cat = Normal None <-> Forall (no_match msg) (c_patterns cfg)).
Proof.
  intros Hown. unfold detectPattern. rewrite (get_category_own _ _ Hown). split.
  - intros p. rewrite <- first_match_spec. split; [now intros [= ->] | now intros ->].
  - rewrite <- first_match_none. split; [now intros [= ->] | now intros ->].
Qed.

Lemma detectPattern_sound (msg cat : string) (p : DetectedPattern) :
  detectPattern msg cat = Normal (Some p) ->
  includes msg (dp_match p) = true /\
  exists cfg pat,
    own_property ERROR_CATEGORIES cat = Some cfg /\ In pat (c_patterns cfg) /\
    dp_type p = p_extract pat /\ dp_testType p = c_testType cfg /\
    length (dp_captures p) = ngroups (p_regex pat) /\
    (forall i, In i (sure_groups (p_regex pat)) -> i < ngroups (p_regex pat) ->
               captured i (dp_captures p)).
Proof.
  unfold detectPattern, get_category.
  destruct (own_property ERROR_CATEGORIES cat) as [cfg |] eqn:Hown.
  - intros [= H]. apply first_match_spec in H.
    destruct H as [pre [pat [post [m [caps [Hps [_ [Hm ->]]]]]]]].
    apply str_match_sound in Hm. destruct Hm as [Hinc [Hlen Hsure]].
    split; [exact Hinc |]. exists cfg, pat. repeat split; auto.
    rewrite Hps. apply in_or_app. right. now left.
  - destruct (arr_includes OBJECT_PROTOTYPE_KEYS cat); discriminate.
Qed.

(** X2. What the detector returns is sound: the match text occurs in the
    message, kind and test type are those of a rule of the category, and
    the captures are as many as the rule has groups, those of groups that
    always take part being defined. *)
Theorem detection_is_sound (msg cat : string) (p : DetectedPattern) :
  detectPattern msg cat = Normal (Some p) ->
  includes msg (dp_match p) = true /\
  exists cfg pat,
    own_property ERROR_CATEGORIES cat = Some cfg /\ In pat (c_patterns cfg) /\
    dp_type p = p_extract pat /\ dp_testType p = c_testType cfg /\
    length (dp_captures p) = ngroups (p_regex pat) /\
    (forall i, In i (sure_groups (p_regex pat)) -> i < ngroups (p_regex pat) ->
               captured i (dp_captures p)).
Proof.
  unfold detectPattern, get_category.
  destruct (own_property ERROR_CATEGORIES cat) as [cfg |] eqn:Hown.
  - intros [= H]. apply first_match_spec in H.
    destruct H as [pre [pat [post [m [caps [Hps [_ [Hm ->]]]]]]]].
    apply str_match_sound in Hm. destruct Hm as [Hinc [Hlen Hsure]].
    split; [exact Hinc |]. exists cfg, pat. repeat split; auto.
    rewrite Hps. apply in_or_app. right. now left.
  - destruct (arr_includes OBJECT_PROTOTYPE_KEYS cat); discriminate.
Qed.

Lemma detection_is_sound_witness :
  includes "ReferenceError: fooBar is not defined" "fooBar is not defined" = true.
Proof.
  exact (proj1 (detection_is_sound "ReferenceError: fooBar is not defined" "js-runtime"
                  (mkDetected "variableName" "fooBar is not defined" [Some "fooBar"]
                              "playwright")
                  eq_refl)).
Defined.

Lemma detection_takes_first_matching_rule_witness :
  detectPattern "SIGSEGV at QAccessible after Segmentation fault" "qt-crash"
    = Normal (Some (mkDetected "accessibilityCrash" "SIGSEGV at QAccessible" [] "manual")).
Proof.
  pose (cfg := mkCategory "Qt/PyQt crashes (SIGSEGV, accessibility)" "manual"
       [ mkPattern (Seq (Lit "SIGSEGV") (Seq (Star Dot) (Lit "QAccessible")))
                   "accessibilityCrash";
         mkPattern (Lit "Segmentation fault") "segfault" ]).
  apply (proj1 (detection_takes_first_matching_rule
                  "SIGSEGV at QAccessible after Segmentation fault" "qt-crash" cfg
                  eq_refl)).
  exists [], (mkPattern (Seq (Lit "SIGSEGV") (Seq (Star Dot) (Lit "QAccessible")))
                        "accessibilityCrash"),
         [mkPattern (Lit "Segmentation fault") "segfault"],
         "SIGSEGV at QAccessible", [].
  split; [reflexivity |]. split; [constructor |].
  split; [vm_compute; reflexivity | reflexivity].
Defined.

(* --------------------------------------------------------------------- *)
(** ** Rules that are plain text *)
Lemma startsWith_nil_r (s : string) : startsWith s EmptyString = true.
Proof. now destruct s. Qed.

Lemma rmatch_Lit {R} (L : string) :
  forall (s : list ascii) (cs : captures) (k : @cont R),
    rmatch (Lit L) s cs k =
    if startsWith (string_of_list_ascii s) L then k (skipn (String.length L) s) cs
    else None.
Proof.
  induction L as [| a L IH]; intros s cs k; simpl.
  - now rewrite startsWith_nil_r.
  - destruct s as [| x s]; simpl; [reflexivity |].
    rewrite (Ascii.eqb_sym a x). destruct (Ascii.eqb x a); simpl; [apply IH | reflexivity].
Qed.

Lemma startsWith_length (s L : string) :
  startsWith s L = true ->
  string_of_list_ascii (firstn (String.length L) (list_ascii_of_string s)) = L.
Proof.
  revert s. induction L as [| a L IH]; intros s H; [reflexivity |].
  destruct s as [| b s]; simpl in H; [discriminate |].
  apply andb_true_iff in H. destruct H as [Hab Hs]. apply Ascii.eqb_eq in Hab. subst.
  simpl. now rewrite IH.
Qed.

Lemma startsWith_length_le (s L : string) :
  startsWith s L = true -> String.length L <= String.length s.
Proof.
  revert s. induction L as [| a L IH]; intros s H; simpl; [lia |].
  destruct s as [| b s]; simpl in H; [discriminate |].
  apply andb_true_iff in H. destruct H as [_ Hs]. apply IH in Hs. simpl. lia.
Qed.

Lemma length_list_ascii (s : string) : length (list_ascii_of_string s) = String.length s.
Proof. induction s; simpl; auto. Qed.

Lemma match_at_Lit (L : string) (s : string) :
  match_at (Lit L) (list_ascii_of_string s) =
  if startsWith s L then Some (L, []) else None.
Proof.
  unfold match_at. rewrite rmatch_Lit, string_of_list_ascii_of_string.
  destruct (startsWith s L) eqn:E; [| reflexivity].
  assert (Hng : ngroups (Lit L) = 0) by (clear; induction L; simpl; auto).
  rewrite Hng.
  simpl. f_equal. f_equal. unfold consumed. rewrite length_skipn.
  pose proof (startsWith_length_le _ _ E) as Hle. rewrite length_list_ascii.
  replace (String.length s - (String.length s - String.length L)) with (String.length L) by lia.
  now apply startsWith_length.
Qed.

(** A rule without operators is a substring test. *)
Lemma str_match_Lit (msg L : string) :
  str_match msg (Lit L) = if includes msg L then Some (L, []) else None.
Proof.
  unfold str_match. induction msg as [| c msg IH].
  - cbn [list_ascii_of_string exec_from includes].
    pose proof (match_at_Lit L EmptyString) as H0.
    change (list_ascii_of_string EmptyString) with (@nil ascii) in H0.
    rewrite H0, orb_false_r.
    destruct (startsWith EmptyString L); reflexivity.
  - cbn [list_ascii_of_string exec_from includes].
    change (c :: list_ascii_of_string msg) with (list_ascii_of_string (String c msg)).
    rewrite match_at_Lit. destruct (startsWith (String c msg) L); [reflexivity |].
    simpl. exact IH.
Qed.


Lemma detect_js_syntax (msg : string) :
  detectPattern msg "js-syntax" =
  Normal (if includes msg "Unexpected token"
          then Some (mkDetected "syntaxError" "Unexpected token" [] "eslint")
          else if includes msg "Unterminated string"
               then Some (mkDetected "unterminatedString" "Unterminated string" [] "eslint")
               else None).
Proof.
  unfold detectPattern.
  change (get_category "js-syntax")
    with (OwnConfig (mkCategory "JavaScript syntax errors" "eslint"
                       [ mkPattern (Lit "Unexpected token") "syntaxError";
                         mkPattern (Lit "Unterminated string") "unterminatedString" ])).
  cbn [first_match c_patterns c_testType p_regex p_extract].
  rewrite !str_match_Lit.
  destruct (includes msg "Unexpected token"); [reflexivity |].
  destruct (includes msg "Unterminated string"); reflexivity.
Qed.

(** X3. Detection under 'js-syntax' is two substring tests in order:
    "Unexpected token" gives 'syntaxError', else "Unterminated string"
    gives 'unterminatedString', else nothing is detected. *)
Theorem syntax_rules_are_substring_tests (msg : string) :
  detectPattern msg "js-syntax" =
  Normal (if includes msg "Unexpected token"
          then Some (mkDetected "syntaxError" "Unexpected token" [] "eslint")
          else if includes msg "Unterminated string"
               then Some (mkDetected "unterminatedString" "Unterminated string" [] "eslint")
               else None).
Proof.
  unfold detectPattern.
  change (get_category "js-syntax")
    with (OwnConfig (mkCategory "JavaScript syntax errors" "eslint"
                       [ mkPattern (Lit "Unexpected token") "syntaxError";
                         mkPattern (Lit "Unterminated string") "unterminatedString" ])).
  cbn [first_match c_patterns c_testType p_regex p_extract].
  rewrite !str_match_Lit.
  destruct (includes msg "Unexpected token"); [reflexivity |].
  destruct (includes msg "Unterminated string"); reflexivity.
Qed.

(* --------------------------------------------------------------------- *)
(** ** Rules that capture an identifier *)

Section WordGroup.
Context {R : Type}.

Lemma star_word_greedy (k : @cont R) (x : R) (rest : list ascii) (cs : captures) :
  not_word_start (string_of_list_ascii rest) = true ->
  k rest cs = Some x ->
  forall (v : list ascii) (fuel : nat),
    forallb isWordChar v = true ->
    length (v ++ rest)%list <= fuel ->
    star_loop (rmatch WordCls) k fuel (v ++ rest)%list cs = Some x.
Proof.
  intros Hrest Hk v. induction v as [| a v IH]; intros fuel Hv Hlen.
  - cbn [app]. destruct fuel as [| fuel]; [exact Hk |].
    cbn [star_loop rmatch]. destruct rest as [| c rest]; [now rewrite Hk |].
    simpl in Hrest. apply negb_true_iff in Hrest. rewrite Hrest. now rewrite Hk.
  - cbn [forallb] in Hv. apply andb_true_iff in Hv. destruct Hv as [Ha Hv].
    destruct fuel as [| fuel]; [simpl in Hlen; lia |].
    cbn [app star_loop rmatch]. rewrite Ha.
    assert (Hlt : (length (v ++ rest)%list <? length (a :: v ++ rest)%list) = true)
      by (apply Nat.ltb_lt; simpl; lia).
    rewrite Hlt. rewrite IH; [reflexivity | exact Hv | simpl in Hlen; lia].
Qed.

Lemma word_group_greedy (i : nat) (k : @cont R) (x : R) (v rest : list ascii)
      (cs : captures) :
  v <> [] -> forallb isWordChar v = true ->
  not_word_start (string_of_list_ascii rest) = true ->
  k rest (set_capture i (string_of_list_ascii v) cs) = Some x ->
  rmatch (word_group i) (v ++ rest)%list cs k = Some x.
Proof.
  intros Hne Hv Hrest Hk. destruct v as [| a v]; [congruence |].
  cbn [forallb] in Hv. apply andb_true_iff in Hv. destruct Hv as [Ha Hv].
  unfold word_group, Plus. cbn [rmatch app]. rewrite Ha.
  apply star_word_greedy; auto.
  change (a :: v ++ rest)%list with ((a :: v) ++ rest)%list.
  now rewrite consumed_suffix.
Qed.

End WordGroup.

Lemma startsWith_app (L t : string) : startsWith (L ++ t) L = true.
Proof. apply startsWith_spec. now exists t. Qed.

Lemma skipn_list_app (L t : string) :
  skipn (String.length L) (list_ascii_of_string (L ++ t)) = list_ascii_of_string t.
Proof. induction L as [| a L IH]; simpl; [reflexivity | exact IH]. Qed.

Lemma rmatch_Lit_app {R} (L t : string) (cs : captures) (k : @cont R) :
  rmatch (Lit L) (list_ascii_of_string (L ++ t)) cs k = k (list_ascii_of_string t) cs.
Proof.
  rewrite rmatch_Lit, string_of_list_ascii_of_string, startsWith_app.
  now rewrite skipn_list_app.
Qed.

Lemma is_identifier_list (v : string) :
  is_identifier v = true ->
  list_ascii_of_string v <> [] /\ forallb isWordChar (list_ascii_of_string v) = true.
Proof.
  unfold is_identifier. rewrite andb_true_iff. intros [Hlen Hall].
  split; [| exact Hall]. destruct v; [discriminate | discriminate].
Qed.

Lemma ngroups_Lit (L : string) : ngroups (Lit L) = 0.
Proof. induction L; simpl; auto. Qed.

Lemma consumed_string (a t : string) :
  consumed (list_ascii_of_string (a ++ t)) (list_ascii_of_string t) = a.
Proof.
  rewrite list_ascii_of_string_app, consumed_suffix.
  apply string_of_list_ascii_of_string.
Qed.

Lemma exec_from_head (r : regex) (s : list ascii) (m : string * captures) :
  match_at r s = Some m -> exec_from r s = Some m.
Proof. intros H. destruct s; simpl; now rewrite H. Qed.

(** A word between two literals, at the start of the message. *)
Lemma str_match_word_between (pre post v tail : string) :
  is_identifier v = true ->
  not_word_start (post ++ tail) = true ->
  str_match (pre ++ v ++ post ++ tail)
            (Seq (Lit pre) (Seq (word_group 0) (Lit post)))
  = Some (pre ++ v ++ post, [Some v]).
Proof.
  intros Hid Hnw. apply is_identifier_list in Hid. destruct Hid as [Hne Hall].
  unfold str_match. apply exec_from_head. unfold match_at.
  cbn [rmatch ngroups]. rewrite !ngroups_Lit. cbn [repeat Nat.add].
  rewrite rmatch_Lit_app. rewrite list_ascii_of_string_app.
  rewrite (word_group_greedy 0 _ (pre ++ v ++ post, [Some v])); auto.
  - now rewrite string_of_list_ascii_of_string.
  - rewrite rmatch_Lit_app. cbn [set_capture].
    rewrite string_of_list_ascii_of_string. f_equal. f_equal.
    replace (pre ++ v ++ post ++ tail) with ((pre ++ v ++ post) ++ tail)
      by (now rewrite !string_app_assoc).
    apply consumed_string.
Qed.

(** A word followed by a literal, at the start of the message. *)
Lemma str_match_word_then (post v tail : string) :
  is_identifier v = true ->
  not_word_start (post ++ tail) = true ->
  str_match (v ++ post ++ tail) (Seq (word_group 0) (Lit post))
  = Some (v ++ post, [Some v]).
Proof.
  intros Hid Hnw. apply is_identifier_list in Hid. destruct Hid as [Hne Hall].
  unfold str_match. apply exec_from_head. unfold match_at.
  cbn [rmatch ngroups]. rewrite !ngroups_Lit. cbn [repeat Nat.add].
  rewrite list_ascii_of_string_app.
  rewrite (word_group_greedy 0 _ (v ++ post, [Some v])); auto.
  - now rewrite string_of_list_ascii_of_string.
  - rewrite rmatch_Lit_app. cbn [set_capture].
    rewrite string_of_list_ascii_of_string. f_equal. f_equal.
    rewrite <- list_ascii_of_string_app.
    replace (v ++ post ++ tail) with ((v ++ post) ++ tail)
      by (now rewrite !string_app_assoc).
    apply consumed_string.
Qed.


(* --------------------------------------------------------------------- *)
(** ** Synthesis, case by case *)

Lemma generateTestForError_unfold (e : ErrorRecord) (w : World) :
  generateTestForError e w =
  match e_detectedPattern e with
  | None => (Normal false, w)
  | Some dp =>
      if dp_testType dp === "playwright" then
        match playwright_case (dp_type dp) (dp_captures dp) with
        | Normal None => (Normal false, w)
        | Normal (Some (n, c)) =>
            (Normal true,
             push_test (mkTest (e_id e) n (playwright_testCode n c) "playwright" (now_iso w)) w)
        | Throw x => (Throw x, w)
        end
      else if dp_testType dp === "eslint" then
        (Normal true, push_lint (mkLint (e_id e) "eslint" "no-undef" (now_iso w)) w)
      else if dp_testType dp === "python" then
        match python_case (dp_type dp) (dp_captures dp) with
        | None => (Normal false, w)
        | Some (n, c) =>
            (Normal true, push_test (mkTest (e_id e) n c "python" (now_iso w)) w)
        end
      else (Normal false, w)
  end.
Proof.
  run_synthesis.
  destruct (e_detectedPattern e) as [dp |]; [| reflexivity].
  destruct (dp_testType dp === "playwright").
  { destruct (playwright_case (dp_type dp) (dp_captures dp)) as [[[n c] |] | x];
      reflexivity. }
  destruct (dp_testType dp === "eslint"); [reflexivity |].
  destruct (dp_testType dp === "python"); [| reflexivity].
  destruct (python_case (dp_type dp) (dp_captures dp)) as [[n c] |]; reflexivity.
Qed.

Lemma arr_includes_cons (x : string) (l : list string) (w : string) :
  arr_includes (x :: l) w = (w === x) || arr_includes l w.
Proof. reflexivity. Qed.

Lemma playwright_case_kinds (type : string) (caps : captures) :
  match playwright_case type caps with
  | Normal None => arr_includes PLAYWRIGHT_KINDS type = false
  | Normal (Some (n, c)) =>
      arr_includes PLAYWRIGHT_KINDS type = true /\
      includes (playwright_testCode n c) n = true
  | Throw _ =>
      arr_includes PLAYWRIGHT_KINDS type = true /\
      type = "variableName" /\ first_capture caps = None
  end.
Proof.
  unfold playwright_case, PLAYWRIGHT_KINDS. rewrite !arr_includes_cons.
  destruct (type === "variableName") eqn:E1.
  - apply String.eqb_eq in E1.
    destruct (first_capture caps) as [v |]; [| now repeat split].
    split; [reflexivity |]. apply includes_spec. eexists. eexists.
    unfold playwright_testCode. reflexivity.
  - destruct (type === "temporalDeadZone").
    + split; [reflexivity |]. apply includes_spec. eexists. eexists.
      unfold playwright_testCode. reflexivity.
    + destruct (type === "notFunction"); [| reflexivity].
      split; [reflexivity |]. apply includes_spec. eexists. eexists.
      unfold playwright_testCode. reflexivity.
Qed.

Lemma python_case_kinds (type : string) (caps : captures) :
  match python_case type caps with
  | None => arr_includes PYTHON_KINDS type = false
  | Some (n, c) => arr_includes PYTHON_KINDS type = true /\ includes c n = true
  end.
Proof.
  unfold python_case, PYTHON_KINDS. rewrite !arr_includes_cons.
  destruct (type === "moduleName").
  - split; [reflexivity |]. apply includes_spec. eexists. eexists. reflexivity.
  - destruct (type === "variableName"); [| reflexivity].
    split; [reflexivity |]. apply includes_spec. eexists. eexists. reflexivity.
Qed.


(* --------------------------------------------------------------------- *)
(** ** Reports: when they throw, what they return *)

Lemma table_captures_ok :
  forallb (fun kc => forallb (capture_rule_ok (snd kc)) (c_patterns (snd kc)))
          ERROR_CATEGORIES = true.
Proof. reflexivity. Qed.

Lemma captured_first (cs : captures) : captured 0 cs -> first_capture cs <> None.
Proof.
  unfold captured. destruct cs as [| [v |] cs]; simpl; congruence.
Qed.

(** Under a browser category, a detected 'variableName' always carries its
    identifier. *)
Lemma playwright_variable_has_capture (msg cat : string) (p : DetectedPattern) :
  detectPattern msg cat = Normal (Some p) ->
  dp_testType p = "playwright" -> dp_type p = "variableName" ->
  first_capture (dp_captures p) <> None.
Proof.
  intros Hdet Htt Hty. apply detection_is_sound in Hdet.
  destruct Hdet as [_ [cfg [pat [Hown [Hin [Hkind [Htest [_ Hsure]]]]]]]].
  apply own_property_In in Hown.
  pose proof table_captures_ok as Htab.
  rewrite forallb_forall in Htab. specialize (Htab _ Hown). cbn [snd] in Htab.
  rewrite forallb_forall in Htab. specialize (Htab _ Hin).
  unfold capture_rule_ok in Htab.
  rewrite <- Htest, <- Hkind, Htt, Hty in Htab. cbn in Htab.
  apply andb_true_iff in Htab. destruct Htab as [Hex Hng].
  apply existsb_exists in Hex. destruct Hex as [i [Hi Hi0]].
  destruct i as [| i]; [| discriminate].
  apply captured_first. apply Hsure; [exact Hi |].
  destruct (ngroups (p_regex pat)); [discriminate | lia].
Qed.

Lemma reported_record_id (msg cat : string) (ctx : Context)
      (dp : option DetectedPattern) (w : World) :
  e_id (reported_record msg cat ctx dp w) = "err_" ++ now_ms w ++ "_" ++ random36 w /\
  e_context (reported_record msg cat ctx dp w) = ctx /\
  e_similarErrors (reported_record msg cat ctx dp w) =
    (if 0 <? length (findSimilarErrors (registry w) msg)
     then Some (map e_id (findSimilarErrors (registry w) msg)) else None).
Proof.
  unfold reported_record.
  destruct dp; destruct (0 <? length (findSimilarErrors (registry w) msg));
    repeat split.
Qed.

(** What a call that returns has done, step by step. *)
Lemma reportError_normal (msg cat : string) (ctx : Context) (w : World) (e : ErrorRecord) :
  fst (reportError msg cat ctx w) = Normal e ->
  exists dp b w2,
    detectPattern msg cat = Normal dp /\
    let e0 := reported_record msg cat ctx dp w in
    generateTestForError e0 (stored e0 w) = (Normal b, w2) /\
    e = (if b then mark_generated e0 else e0) /\
    snd (reportError msg cat ctx w)
      = (if b then marked (length (r_errors (registry w))) w2 else w2).
Proof.
  destruct (reportError_outcomes msg cat ctx w)
    as [[x [_ Hrun]] | [dp [w2 [c [Hdet [Hgen Hc]]]]]].
  - rewrite Hrun. discriminate.
  - cbv zeta in Hgen. destruct c as [[|] | x]; destruct Hc as [Hrun _]; rewrite Hrun;
      cbn [fst snd]; try discriminate; intros [= <-].
    + exists dp, true, w2. now repeat split.
    + exists dp, false, w2. now repeat split.
Qed.

Lemma generate_true_iff (e : ErrorRecord) (w w2 : World) (b : bool) :
  generateTestForError e w = (Normal b, w2) ->
  (b = true <-> exists p, e_detectedPattern e = Some p /\ synthesizable p = true).
Proof.
  rewrite generateTestForError_unfold. unfold synthesizable.
  destruct (e_detectedPattern e) as [dp |].
  2: { intros [= <- _]. split; [discriminate | now intros [p [H _]]]. }
  assert (Hsome : forall P : DetectedPattern -> Prop,
             (exists p, Some dp = Some p /\ P p) <-> P dp).
  { intros P. split; [now intros [p [[= <-] H]] | intros H; now exists dp]. }
  rewrite Hsome.
  destruct (dp_testType dp === "playwright").
  { pose proof (playwright_case_kinds (dp_type dp) (dp_captures dp)) as Hk.
    destruct (playwright_case (dp_type dp) (dp_captures dp)) as [[[n c] |] | x];
      intros [= <- _]; try discriminate.
    - destruct Hk as [-> _]. tauto.
    - rewrite Hk. split; discriminate. }
  destruct (dp_testType dp === "eslint"); [intros [= <- _]; tauto |].
  destruct (dp_testType dp === "python").
  { pose proof (python_case_kinds (dp_type dp) (dp_captures dp)) as Hk.
    destruct (python_case (dp_type dp) (dp_captures dp)) as [[n c] |];
      intros [= <- _].
    - destruct Hk as [-> _]. tauto.
    - rewrite Hk. split; discriminate. }
  intros [= <- _]. split; discriminate.
Qed.

Lemma report_throws_only_on_inherited (msg cat : string) (ctx : Context) (w : World) :
  (exists x, fst (reportError msg cat ctx w) = Throw x) <-> get_category cat = Inherited.
Proof.
  split.
  - intros [x Hx].
    destruct (reportError_outcomes msg cat ctx w)
      as [[y [Hdet _]] | [dp [w2 [c [Hdet [Hgen Hc]]]]]].
    + unfold detectPattern in Hdet. destruct (get_category cat); congruence.
    + exfalso. cbv zeta in Hgen.
      destruct c as [[|] | y]; destruct Hc as [Hrun _]; rewrite Hrun in Hx;
        try discriminate.
      rewrite generateTestForError_unfold in Hgen.
      destruct (reported_record_fields msg cat ctx dp w) as [_ [_ [_ [_ Hp]]]].
      rewrite Hp in Hgen. destruct dp as [p |]; [| discriminate].
      destruct (dp_testType p === "playwright") eqn:Ett.
      * apply String.eqb_eq in Ett.
        pose proof (playwright_case_kinds (dp_type p) (dp_captures p)) as Hk.
        destruct (playwright_case (dp_type p) (dp_captures p)) as [[[n c] |] | z];
          try discriminate.
        destruct Hk as [_ [Hty Hcap]].
        now apply (playwright_variable_has_capture msg cat p Hdet Ett Hty).
      * destruct (dp_testType p === "eslint"); [discriminate |].
        destruct (dp_testType p === "python"); [| discriminate].
        destruct (python_case (dp_type p) (dp_captures p)) as [[n c] |]; discriminate.
  - intros Hcat. exists (TypeError "categoryConfig.patterns is not iterable").
    rewrite reportError_run. unfold detectPattern. now rewrite Hcat.
Qed.


Lemma status_tells_whether_a_remedy_exists
        (msg cat : string) (ctx : Context) (w : World) (e : ErrorRecord) :
  fst (reportError msg cat ctx w) = Normal e ->
  (e_status e = "test-generated" <->
   exists p, detectPattern msg cat = Normal (Some p) /\ synthesizable p = true).
Proof.
  intros H. apply reportError_normal in H.
  destruct H as [dp [b [w2 [Hdet [Hgen [-> _]]]]]].
  apply generate_true_iff in Hgen.
  destruct (reported_record_fields msg cat ctx dp w) as [Hs [_ [_ [_ Hp]]]].
  rewrite Hp in Hgen. rewrite Hdet.
  assert (Hiff : (exists p, Normal dp = Normal (Some p) /\ synthesizable p = true) <->
                 (exists p, dp = Some p /\ synthesizable p = true)).
  { split; intros [p [Hq Hsyn]]; exists p; split; congruence. }
  rewrite Hiff, <- Hgen.
  destruct b; cbn; [tauto |]. rewrite Hs. split; discriminate.
Qed.


Lemma generate_false_same (e : ErrorRecord) (w w2 : World) :
  generateTestForError e w = (Normal false, w2) -> w2 = w.
Proof.
  rewrite generateTestForError_unfold.
  destruct (e_detectedPattern e) as [dp |]; [| now intros [= <-]].
  destruct (dp_testType dp === "playwright").
  { destruct (playwright_case (dp_type dp) (dp_captures dp)) as [[[n c] |] | x];
      intros [= <-]; reflexivity. }
  destruct (dp_testType dp === "eslint"); [discriminate |].
  destruct (dp_testType dp === "python"); [| now intros [= <-]].
  destruct (python_case (dp_type dp) (dp_captures dp)) as [[n c] |];
    intros [= <-]; reflexivity.
Qed.

(** What a successful synthesis step adds: one fragment that carries the
    record's id and contains its own name, or one lint entry. *)
Lemma generate_true_effect (e : ErrorRecord) (w w2 : World) :
  generateTestForError e w = (Normal true, w2) ->
  (exists t,
      w2 = push_test t w /\ t_errorId t = e_id e /\
      includes (t_testCode t) (t_testName t) = true /\
      (t_testType t = "playwright" \/ t_testType t = "python")) \/
  w2 = push_lint (mkLint (e_id e) "eslint" "no-undef" (now_iso w)) w.
Proof.
  rewrite generateTestForError_unfold.
  destruct (e_detectedPattern e) as [dp |]; [| discriminate].
  destruct (dp_testType dp === "playwright").
  { pose proof (playwright_case_kinds (dp_type dp) (dp_captures dp)) as Hk.
    destruct (playwright_case (dp_type dp) (dp_captures dp)) as [[[n c] |] | x];
      intros [= <-]. left. eexists. split; [reflexivity |].
    destruct Hk as [_ Hinc]. cbn. auto. }
  destruct (dp_testType dp === "eslint"); [intros [= <-]; now right |].
  destruct (dp_testType dp === "python"); [| discriminate].
  pose proof (python_case_kinds (dp_type dp) (dp_captures dp)) as Hk.
  destruct (python_case (dp_type dp) (dp_captures dp)) as [[n c] |];
    intros [= <-]. left. eexists. split; [reflexivity |].
  destruct Hk as [_ Hinc]. cbn. auto.
Qed.

(** X8. A report, whether it returns or throws, leaves every file as it
    was: fragments reach the test files through the export only. *)
Theorem report_never_touches_files (msg cat : string) (ctx : Context) (w : World) :
  files (snd (reportError msg cat ctx w)) = files w.
Proof.
  rewrite reportError_run.
  destruct (detectPattern msg cat) as [dp | x]; [| reflexivity].
  cbv zeta. set (e0 := reported_record msg cat ctx dp w).
  pose proof (proj2 (generateTestForError_frame e0 (stored e0 w))) as Hf.
  destruct (generateTestForError e0 (stored e0 w)) as [[[|] | x] w2];
    cbn [snd] in *; exact Hf.
Qed.

Lemma report_persists (msg cat : string) (ctx : Context) (w : World) (e : ErrorRecord) :
  fst (reportError msg cat ctx w) = Normal e ->
  let w' := snd (reportError msg cat ctx w) in
  disk w' = Doc (registry w') /\
  r_errors (registry w') = (r_errors (registry w) ++ [e])%list.
Proof.
  intros H. pose proof H as H'. apply reportError_normal in H'.
  destruct H' as [dp [b [w2 [Hdet [Hgen [He Hw]]]]]]. cbv zeta in *.
  rewrite Hw. set (e0 := reported_record msg cat ctx dp w) in *.
  pose proof (proj1 (generateTestForError_frame e0 (stored e0 w))) as Hf.
  rewrite Hgen in Hf. cbn [snd] in Hf.
  destruct b.
  - split; [reflexivity |]. rewrite (proj1 (marked_registry _ w2)), Hf.
    rewrite (proj1 (stored_registry e0 w)), update_at_last. now subst e.
  - apply generate_false_same in Hgen. subst w2 e. split; [reflexivity |].
    apply stored_registry.
Qed.

Lemma report_links (msg cat : string) (ctx : Context) (w : World) (e : ErrorRecord) :
  fst (reportError msg cat ctx w) = Normal e ->
  let w' := snd (reportError msg cat ctx w) in
  if e_testGenerated e then
    (exists t,
        r_generatedTests (registry w') = (r_generatedTests (registry w) ++ [t])%list /\
        r_patterns (registry w') = r_patterns (registry w) /\
        t_errorId t = e_id e /\
        includes (t_testCode t) (t_testName t) = true /\
        (t_testType t = "playwright" \/ t_testType t = "python")) \/
    (r_patterns (registry w') =
       (r_patterns (registry w) ++ [mkLint (e_id e) "eslint" "no-undef" (now_iso w)])%list /\
     r_generatedTests (registry w') = r_generatedTests (registry w))
  else
    r_generatedTests (registry w') = r_generatedTests (registry w) /\
    r_patterns (registry w') = r_patterns (registry w).
Proof.
  intros H. pose proof H as H'. apply reportError_normal in H'.
  destruct H' as [dp [b [w2 [Hdet [Hgen [He Hw]]]]]]. cbv zeta in *.
  rewrite Hw. set (e0 := reported_record msg cat ctx dp w) in *.
  destruct (reported_record_fields msg cat ctx dp w) as [_ [Ht _]]. fold e0 in Ht.
  destruct b; subst e.
  - cbn [mark_generated e_testGenerated e_id].
    apply generate_true_effect in Hgen. destruct Hgen as [[t [-> [Hid [Hinc Hty]]]] | ->].
    + left. exists t. repeat split; auto.
    + right. split; reflexivity.
  - rewrite Ht. apply generate_false_same in Hgen. subst w2. split; reflexivity.
Qed.


(** X7. When a report returns a record with [testGenerated] set, exactly
    one remedy was added and it carries the record's id: one fragment for
    the browser or the interpreter, whose code contains its name, or one
    'no-undef' lint entry; when the flag is not set, neither list changed. *)
Theorem report_links_remedy_to_record
        (msg cat : string) (ctx : Context) (w : World) (e : ErrorRecord) :
  fst (reportError msg cat ctx w) = Normal e ->
  let w' := snd (reportError msg cat ctx w) in
  if e_testGenerated e then
    (exists t,
        r_generatedTests (registry w') = (r_generatedTests (registry w) ++ [t])%list /\
        r_patterns (registry w') = r_patterns (registry w) /\
        t_errorId t = e_id e /\
        includes (t_testCode t) (t_testName t) = true /\
        (t_testType t = "playwright" \/ t_testType t = "python")) \/
    (r_patterns (registry w') =
       (r_patterns (registry w) ++ [mkLint (e_id e) "eslint" "no-undef" (now_iso w)])%list /\
     r_generatedTests (registry w') = r_generatedTests (registry w))
  else
    r_generatedTests (registry w') = r_generatedTests (registry w) /\
    r_patterns (registry w') = r_patterns (registry w).
Proof.
  intros H. pose proof H as H'. apply reportError_normal in H'.
  destruct H' as [dp [b [w2 [Hdet [Hgen [He Hw]]]]]]. cbv zeta in *.
  rewrite Hw. set (e0 := reported_record msg cat ctx dp w) in *.
  destruct (reported_record_fields msg cat ctx dp w) as [_ [Ht _]]. fold e0 in Ht.
  destruct b; subst e.
  - cbn [mark_generated e_testGenerated e_id].
    apply generate_true_effect in Hgen. destruct Hgen as [[t [-> [Hid [Hinc Hty]]]] | ->].
    + left. exists t. repeat split; auto.
    + right. split; reflexivity.
  - rewrite Ht. apply generate_false_same in Hgen. subst w2. split; reflexivity.
Qed.



Lemma detect_with_config (msg cat : string) (cfg : CategoryConfig) :
  own_property ERROR_CATEGORIES cat = Some cfg ->
  detectPattern msg cat = Normal (first_match msg (c_testType cfg) (c_patterns cfg)).
Proof. intros H. unfold detectPattern. now rewrite (get_category_own _ _ H). Qed.

Lemma table_kinds_ok :
  forallb (fun kc => forallb (kind_rule_ok (snd kc)) (c_patterns (snd kc)))
          ERROR_CATEGORIES = true.
Proof. reflexivity. Qed.

Lemma detected_kind_synthesizable (msg cat : string) (p : DetectedPattern) :
  detectPattern msg cat = Normal (Some p) ->
  synthesizable p = arr_includes REMEDIED_KINDS (dp_type p).
Proof.
  intros Hdet. apply detection_is_sound in Hdet.
  destruct Hdet as [_ [cfg [pat [Hown [Hin [Hkind [Htest _]]]]]]].
  apply own_property_In in Hown.
  pose proof table_kinds_ok as Htab.
  rewrite forallb_forall in Htab. specialize (Htab _ Hown). cbn [snd] in Htab.
  rewrite forallb_forall in Htab. specialize (Htab _ Hin).
  unfold kind_rule_ok in Htab. apply Bool.eqb_prop in Htab.
  rewrite Hkind, <- Htab. unfold synthesizable. cbn [dp_testType dp_type].
  now rewrite Htest, Hkind.
Qed.

(** X5. A returned record is 'test-generated' exactly when its detected
    kind is one of six: 'variableName', 'temporalDeadZone', 'notFunction',
    'syntaxError', 'unterminatedString', 'moduleName'.  The other nine kinds
    of the taxonomy are recognised and never remedied. *)
Theorem remedy_exists_exactly_for_six_kinds
        (msg cat : string) (ctx : Context) (w : World) (e : ErrorRecord) :
  fst (reportError msg cat ctx w) = Normal e ->
  (e_status e = "test-generated" <->
   exists p, e_detectedPattern e = Some p /\
             arr_includes REMEDIED_KINDS (dp_type p) = true).
Proof.
  intros H. apply reportError_normal in H.
  destruct H as [dp [b [w2 [Hdet [Hgen [-> _]]]]]]. cbv zeta in Hgen.
  apply generate_true_iff in Hgen.
  destruct (reported_record_fields msg cat ctx dp w) as [Hs [_ [_ [_ Hp]]]].
  rewrite Hp in Hgen.
  assert (Hpat : e_detectedPattern
                   (if b then mark_generated (reported_record msg cat ctx dp w)
                    else reported_record msg cat ctx dp w) = dp)
    by (destruct b; exact Hp).
  rewrite Hpat.
  assert (Hiff : (exists p, dp = Some p /\ synthesizable p = true) <->
                 (exists p, dp = Some p /\ arr_includes REMEDIED_KINDS (dp_type p) = true)).
  { split; intros [p [-> Hk]]; exists p; split; auto;
      [rewrite <- (detected_kind_synthesizable msg cat p Hdet)
      | rewrite (detected_kind_synthesizable msg cat p Hdet)]; exact Hk. }
  rewrite <- Hiff, <- Hgen.
  destruct b; cbn; [tauto |]. rewrite Hs. split; discriminate.
Qed.

(* --------------------------------------------------------------------- *)
(** ** More on similarity *)
Lemma filter_length_all {A} (f : A -> bool) (l : list A) :
  (forall x, In x l -> f x = true) -> length (filter f l) = length l.
Proof. intros H. now rewrite filter_all_true. Qed.

Lemma superset_query_is_similar (this : Registry) (q : string) (e : ErrorRecord) :
  (forall x, In x (significant_words q) -> In x (significant_words (e_message e))) ->
  In e (r_errors this) ->
  In e (findSimilarErrors this q).
Proof.
  intros Hsub Hin. apply findSimilarErrors_In. split; [exact Hin |].
  rewrite filter_length_all.
  - apply meets_threshold_nat. lia.
  - intros x Hx. apply arr_includes_In. now apply Hsub.
Qed.

(** X10. A record whose message contains every significant word of the
    query is returned; so a message is always similar to a record with the
    same message, whatever the case of its letters. *)
Theorem contained_query_is_similar (this : Registry) (q : string) (e : ErrorRecord) :
  (forall x, In x (significant_words q) -> In x (significant_words (e_message e))) ->
  In e (r_errors this) ->
  In e (findSimilarErrors this q).
Proof.
  intros Hsub Hin. apply findSimilarErrors_In. split; [exact Hin |].
  rewrite filter_length_all.
  - apply meets_threshold_nat. lia.
  - intros x Hx. apply arr_includes_In. now apply Hsub.
Qed.

(** X11. Three distinct significant words shared with the query are
    enough for a record to be returned, however long the query is. *)
Theorem three_shared_words_suffice (this : Registry) (q : string) (e : ErrorRecord)
        (a b c : string) :
  NoDup [a; b; c] ->
  (forall x, In x [a; b; c] ->
             In x (significant_words q) /\ In x (significant_words (e_message e))) ->
  In e (r_errors this) ->
  In e (findSimilarErrors this q).
Proof.
  intros Hnd Hshared Hin. apply findSimilarErrors_In. split; [exact Hin |].
  apply meets_threshold_nat.
  assert (Hlen : length [a; b; c] <=
                 length (filter (fun w => arr_includes (significant_words (e_message e)) w)
                                (significant_words q))).
  { apply NoDup_incl_length; [exact Hnd |].
    intros x Hx. apply filter_In. destruct (Hshared x Hx) as [Hq He].
    split; [exact Hq | now apply arr_includes_In]. }
  simpl in Hlen. lia.
Qed.

(** X12. A record that shares no significant word with a query that has
    at least one is not returned. *)
Theorem unrelated_record_is_not_similar (this : Registry) (q : string) (e : ErrorRecord) :
  significant_words q <> [] ->
  (forall x, In x (significant_words q) -> ~ In x (significant_words (e_message e))) ->
  ~ In e (findSimilarErrors this q).
Proof.
  intros Hne Hdisj Hin. apply findSimilarErrors_In in Hin. destruct Hin as [_ Hmeet].
  rewrite filter_none in Hmeet.
  - apply meets_threshold_nat in Hmeet. simpl in Hmeet.
    destruct (significant_words q); [congruence | simpl in Hmeet; lia].
  - apply Forall_forall. intros x Hx. apply arr_includes_false. now apply Hdisj.
Qed.

(** X9. When the registry holds a record whose message contains every
    significant word of a new report, the returned record lists that
    record's id in [similarErrors], which holds the ids of all records
    similar to the message at the time of the report. *)
Theorem repeated_failure_is_flagged
        (msg cat : string) (ctx : Context) (w : World) (e1 e : ErrorRecord) :
  In e1 (r_errors (registry w)) ->
  (forall x, In x (significant_words msg) -> In x (significant_words (e_message e1))) ->
  fst (reportError msg cat ctx w) = Normal e ->
  exists ids, e_similarErrors e = Some ids /\ In (e_id e1) ids /\
              ids = map e_id (findSimilarErrors (registry w) msg).
Proof.
  intros Hin Hsub H. apply reportError_normal in H.
  destruct H as [dp [b [w2 [_ [_ [-> _]]]]]].
  pose proof (superset_query_is_similar (registry w) msg e1 Hsub Hin) as Hsim.
  destruct (reported_record_id msg cat ctx dp w) as [_ [_ Hids]].
  assert (Hpos : (0 <? length (findSimilarErrors (registry w) msg)) = true).
  { apply Nat.ltb_lt. destruct (findSimilarErrors (registry w) msg); [contradiction | simpl; lia]. }
  rewrite Hpos in Hids.
  exists (map e_id (findSimilarErrors (registry w) msg)).
  split; [destruct b; exact Hids |]. split; [now apply in_map | reflexivity].
Qed.


(* --------------------------------------------------------------------- *)
(** ** From a message to a fragment *)

(** The outcome of a report whose pattern is known and leads to a browser
    or interpreter fragment. *)
Lemma report_with_fragment (msg cat : string) (ctx : Context) (w : World)
      (p : DetectedPattern) (t : GeneratedTest) :
  detectPattern msg cat = Normal (Some p) ->
  (forall e0 w1, e_detectedPattern e0 = Some p ->
                 generateTestForError e0 w1
                 = (Normal true,
                    push_test (mkTest (e_id e0) (t_testName t) (t_testCode t)
                                      (t_testType t) (now_iso w1)) w1)) ->
  exists e,
    fst (reportError msg cat ctx w) = Normal e /\
    e_status e = "test-generated" /\ e_testGenerated e = true /\
    e_detectedPattern e = Some p /\
    r_generatedTests (registry (snd (reportError msg cat ctx w))) =
      (r_generatedTests (registry w)
         ++ [mkTest (e_id e) (t_testName t) (t_testCode t) (t_testType t) (now_iso w)])%list.
Proof.
  intros Hdet Hgen. rewrite reportError_run, Hdet. cbv zeta.
  set (e0 := reported_record msg cat ctx (Some p) w).
  destruct (reported_record_fields msg cat ctx (Some p) w) as [_ [_ [_ [_ Hp]]]].
  fold e0 in Hp. rewrite (Hgen e0 _ Hp). cbn [fst snd].
  exists (mark_generated e0).
  assert (Herr : r_errors (registry (marked (length (r_errors (registry w)))
                   (push_test (mkTest (e_id e0) (t_testName t) (t_testCode t)
                                      (t_testType t) (now_iso (stored e0 w)))
                              (stored e0 w))))
                 = (r_errors (registry w) ++ [mark_generated e0])%list).
  { rewrite (proj1 (marked_registry _ _)). cbn. apply update_at_last. }
  rewrite Herr, nth_last. repeat split; auto.
Qed.



(** X13. For every identifier [v], a report of "[v] is not defined",
    followed by any text, under 'js-runtime' returns a 'test-generated'
    record with capture [v] and appends one browser fragment named
    variable_[v]_accessible that carries the record's id. *)
Theorem undefined_identifier_gets_accessibility_test
        (v tail : string) (ctx : Context) (w : World) :
  is_identifier v = true ->
  let msg := v ++ " is not defined" ++ tail in
  exists e t,
    fst (reportError msg "js-runtime" ctx w) = Normal e /\
    e_status e = "test-generated" /\
    e_detectedPattern e =
      Some (mkDetected "variableName" (v ++ " is not defined") [Some v] "playwright") /\
    r_generatedTests (registry (snd (reportError msg "js-runtime" ctx w))) =
      (r_generatedTests (registry w) ++ [t])%list /\
    t_errorId t = e_id e /\ t_testType t = "playwright" /\
    t_testName t = "variable_" ++ v ++ "_accessible".
Proof.
  intros Hid msg.
  assert (Hdet : detectPattern msg "js-runtime" =
                 Normal (Some (mkDetected "variableName" (v ++ " is not defined")
                                          [Some v] "playwright"))).
  { rewrite (detect_with_config msg "js-runtime" _ eq_refl).
    cbn [first_match c_patterns c_testType p_regex p_extract]. unfold msg.
    now rewrite (str_match_word_then " is not defined" v tail Hid eq_refl). }
  destruct (playwright_case "variableName" [Some v]) as [[[n c] |] | x] eqn:Ecase;
    try discriminate.
  assert (Hn : n = "variable_" ++ v ++ "_accessible") by (now injection Ecase).
  destruct (report_with_fragment msg "js-runtime" ctx w _
              (mkTest "" n (playwright_testCode n c) "playwright" "") Hdet)
    as [e [Hrun [Hs [_ [Hp Hg]]]]].
  { intros e0 w1 Hp. rewrite generateTestForError_unfold, Hp.
    cbn [dp_testType dp_type dp_captures t_testName t_testCode t_testType].
    change ("playwright" === "playwright") with true. cbv iota.
    now rewrite Ecase. }
  eexists. eexists. split; [exact Hrun |]. split; [exact Hs |]. split; [exact Hp |].
  split; [exact Hg |]. cbn. auto.
Qed.

Lemma undefined_identifier_gets_accessibility_test_witness :
  exists e t,
    fst (reportError "inheritorsList is not defined at app.js:12" "js-runtime" []
                     sample_world) = Normal e /\
    e_status e = "test-generated" /\
    t_testName t = "variable_inheritorsList_accessible".
Proof.
  destruct (undefined_identifier_gets_accessibility_test
              "inheritorsList" " at app.js:12" [] sample_world eq_refl)
    as [e [t [H1 [H2 [_ [_ [_ [_ H3]]]]]]]].
  exists e, t. repeat split; assumption.
Defined.


Lemma report_python_fragment (pre post kind v tail cat : string) (ctx : Context)
      (w : World) (n c : string) :
  detectPattern (pre ++ v ++ post ++ tail) cat =
    Normal (Some (mkDetected kind (pre ++ v ++ post) [Some v] "python")) ->
  python_case kind [Some v] = Some (n, c) ->
  exists e t,
    fst (reportError (pre ++ v ++ post ++ tail) cat ctx w) = Normal e /\
    e_status e = "test-generated" /\
    r_generatedTests (registry (snd (reportError (pre ++ v ++ post ++ tail) cat ctx w))) =
      (r_generatedTests (registry w) ++ [t])%list /\
    t_errorId t = e_id e /\ t_testType t = "python" /\ t_testName t = n.
Proof.
  intros Hdet Hcase.
  destruct (report_with_fragment _ cat ctx w _ (mkTest "" n c "python" "") Hdet)
    as [e [Hrun [Hs [_ [Hp Hg]]]]].
  { intros e0 w1 Hp. rewrite generateTestForError_unfold, Hp.
    cbn [dp_testType dp_type dp_captures t_testName t_testCode t_testType].
    change ("python" === "playwright") with false.
    change ("python" === "eslint") with false.
    change ("python" === "python") with true. cbv iota.
    now rewrite Hcase. }
  eexists. eexists. split; [exact Hrun |]. split; [exact Hs |].
  split; [exact Hg |]. cbn. auto.
Qed.

(** X14. For every identifier [v], a report of a missing module [v] under
    'python-import' appends the interpreter fragment
    test_module_[v]_importable, and a report of an undefined name [v] under
    'python-runtime' appends test_variable_[v]_defined; both records are
    'test-generated'. *)
Theorem python_names_get_interpreter_tests
        (v tail : string) (ctx : Context) (w : World) :
  is_identifier v = true ->
  (let msg := "ModuleNotFoundError: No module named '" ++ v ++ "'" ++ tail in
   exists e t,
     fst (reportError msg "python-import" ctx w) = Normal e /\
     e_status e = "test-generated" /\
     r_generatedTests (registry (snd (reportError msg "python-import" ctx w))) =
       (r_generatedTests (registry w) ++ [t])%list /\
     t_errorId t = e_id e /\ t_testType t = "python" /\
     t_testName t = "test_module_" ++ v ++ "_importable") /\
  (let msg := "NameError: name '" ++ v ++ "' is not defined" ++ tail in
   exists e t,
     fst (reportError msg "python-runtime" ctx w) = Normal e /\
     e_status e = "test-generated" /\
     r_generatedTests (registry (snd (reportError msg "python-runtime" ctx w))) =
       (r_generatedTests (registry w) ++ [t])%list /\
     t_errorId t = e_id e /\ t_testType t = "python" /\
     t_testName t = "test_variable_" ++ v ++ "_defined").
Proof.
  intros Hid. split; cbv zeta.
  - destruct (python_case "moduleName" [Some v]) as [[n c] |] eqn:Ecase;
      [| discriminate].
    assert (Hn : n = "test_module_" ++ v ++ "_importable") by (now injection Ecase).
    rewrite <- Hn.
    apply (report_python_fragment "ModuleNotFoundError: No module named '" "'"
                                  "moduleName" v tail "python-import" ctx w n c);
      [| exact Ecase].
    rewrite (detect_with_config _ "python-import" _ eq_refl).
    cbn [first_match c_patterns c_testType p_regex p_extract].
    now rewrite (str_match_word_between "ModuleNotFoundError: No module named '" "'"
                                        v tail Hid eq_refl).
  - destruct (python_case "variableName" [Some v]) as [[n c] |] eqn:Ecase;
      [| discriminate].
    assert (Hn : n = "test_variable_" ++ v ++ "_defined") by (now injection Ecase).
    rewrite <- Hn.
    apply (report_python_fragment "NameError: name '" "' is not defined"
                                  "variableName" v tail "python-runtime" ctx w n c);
      [| exact Ecase].
    rewrite (detect_with_config _ "python-runtime" _ eq_refl).
    cbn [first_match c_patterns c_testType p_regex p_extract].
    now rewrite (str_match_word_between "NameError: name '" "' is not defined"
                                        v tail Hid eq_refl).
Qed.

Lemma python_names_get_interpreter_tests_witness :
  exists e t,
    fst (reportError "ModuleNotFoundError: No module named 'requests'" "python-import" []
                     sample_world) = Normal e /\
    e_status e = "test-generated" /\
    t_testName t = "test_module_requests_importable".
Proof.
  destruct (proj1 (python_names_get_interpreter_tests "requests" "" [] sample_world
                                                      eq_refl))
    as [e [t [H1 [H2 [_ [_ [_ H3]]]]]]].
  exists e, t. repeat split; assumption.
Defined.

(** X15. A report under 'js-syntax' always returns and never adds a
    fragment; when the message contains "Unexpected token" or "Unterminated
    string" the record is 'test-generated' and one 'no-undef' lint entry
    with its id is added, otherwise it stays 'new' without a pattern. *)
Theorem syntax_report_adds_lint_entry (msg : string) (ctx : Context) (w : World) :
  exists e,
    fst (reportError msg "js-syntax" ctx w) = Normal e /\
    let w' := snd (reportError msg "js-syntax" ctx w) in
    r_generatedTests (registry w') = r_generatedTests (registry w) /\
    if includes msg "Unexpected token" || includes msg "Unterminated string"
    then e_status e = "test-generated" /\
         r_patterns (registry w') =
           (r_patterns (registry w)
              ++ [mkLint (e_id e) "eslint" "no-undef" (now_iso w)])%list
    else e_status e = "new" /\ e_detectedPattern e = None /\
         r_patterns (registry w') = r_patterns (registry w).
Proof.
  rewrite reportError_run, detect_js_syntax. cbv zeta.
  destruct (includes msg "Unexpected token") eqn:E1;
    [| destruct (includes msg "Unterminated string") eqn:E2]; cbn [orb];
    match goal with
    | |- context [reported_record msg "js-syntax" ctx ?dp w] =>
        set (e0 := reported_record msg "js-syntax" ctx dp w);
        destruct (reported_record_fields msg "js-syntax" ctx dp w)
          as [Hs [Ht [_ [_ Hp]]]]; fold e0 in Hs, Ht, Hp
    end;
    rewrite generateTestForError_unfold, Hp; cbn [dp_testType];
    try (change ("eslint" === "playwright") with false;
         change ("eslint" === "eslint") with true); cbv iota; cbn [fst snd].
  - exists (nth (length (r_errors (registry w)))
                (r_errors (registry (marked (length (r_errors (registry w)))
                   (push_lint (mkLint (e_id e0) "eslint" "no-undef" (now_iso (stored e0 w)))
                              (stored e0 w))))) e0).
    split; [reflexivity |]. rewrite (proj1 (marked_registry _ _)). cbn [push_lint].
    cbn. rewrite update_at_last, nth_last. cbn. repeat split.
  - exists (nth (length (r_errors (registry w)))
                (r_errors (registry (marked (length (r_errors (registry w)))
                   (push_lint (mkLint (e_id e0) "eslint" "no-undef" (now_iso (stored e0 w)))
                              (stored e0 w))))) e0).
    split; [reflexivity |]. rewrite (proj1 (marked_registry _ _)). cbn [push_lint].
    cbn. rewrite update_at_last, nth_last. cbn. repeat split.
  - exists e0. repeat split; auto.
Qed.


(* --------------------------------------------------------------------- *)
(** ** More on the exporter *)
Lemma includes_join (sep : string) (l : list string) (c : string) :
  In c l -> includes (join sep l) c = true.
Proof.
  induction l as [| x l IH]; [contradiction |].
  intros [-> | Hin].
  - destruct l as [| y l]; cbn [join]; [apply includes_refl |].
    apply includes_app_l, includes_refl.
  - destruct l as [| y l]; [contradiction |]. cbn [join].
    apply includes_app_r, includes_app_r. now apply IH.
Qed.

Lemma playwright_file_includes_body (body : string) :
  includes (playwright_file body) body = true.
Proof.
  apply includes_spec. unfold playwright_file. eexists. eexists. reflexivity.
Qed.

Lemma python_file_includes_body (body : string) :
  includes (python_file body) body = true.
Proof.
  unfold python_file.
  repeat first [ apply includes_app_l, includes_refl | apply includes_app_r ].
Qed.

Lemma export_file_mentions_fragment (envelope : string -> string)
      (tests : list GeneratedTest) (t : GeneratedTest) :
  (forall body, includes (envelope body) body = true) ->
  In t tests ->
  includes (t_testCode t) (t_testName t) = true ->
  includes (envelope (join nl (map t_testCode tests))) (t_testName t) = true.
Proof.
  intros Henv Hin Hname.
  eapply includes_trans; [apply Henv |].
  eapply includes_trans; [| exact Hname].
  apply includes_join. now apply in_map.
Qed.

Lemma filter_nil_iff {A} (f : A -> bool) (l : list A) :
  filter f l = [] <-> forall x, In x l -> f x = false.
Proof.
  induction l as [| a l IH]; simpl.
  - split; [contradiction | reflexivity].
  - destruct (f a) eqn:E.
    + split; [discriminate |]. intros H. specialize (H a (or_introl eq_refl)). congruence.
    + rewrite IH. split.
      * intros H x [-> | Hx]; auto.
      * intros H x Hx. apply H. now right.
Qed.

Lemma file_text_written (w : World) (p text : string) :
  file_text (snd (writeFileSync p text w)) p = text.
Proof. unfold file_text, writeFileSync, modify. cbn. now rewrite String.eqb_refl. Qed.

Section ExportOnce.
Variable envelope : string -> string.
Variable target : string.
Hypothesis envelope_body : forall body, includes (envelope body) body = true.

Lemma export_to_noop (tests : list GeneratedTest) (w : World) :
  (forall t, In t tests -> includes (file_text w target) (t_testName t) = true) ->
  export_to envelope target tests w = (Normal tt, w).
Proof.
  intros Hall. unfold export_to, bind, read_or_empty, gets. fold (file_text w target).
  rewrite (proj2 (filter_nil_iff _ tests)); [reflexivity |].
  intros t Ht. now rewrite (Hall t Ht).
Qed.

Lemma export_to_all (tests : list GeneratedTest) (w : World) :
  tests <> [] ->
  (forall t, In t tests -> includes (file_text w target) (t_testName t) = false) ->
  export_to envelope target tests w =
    writeFileSync target (envelope (join nl (map t_testCode tests))) w.
Proof.
  intros Hne Hnone. unfold export_to, bind, read_or_empty, gets. fold (file_text w target).
  rewrite filter_all_true; [| intros t Ht; now rewrite (Hnone t Ht)].
  destruct tests; [congruence | reflexivity].
Qed.

Lemma export_to_stable (tests : list GeneratedTest) (w : World) :
  (forall t, In t tests -> includes (t_testCode t) (t_testName t) = true) ->
  (forall t, In t tests -> includes (file_text w target) (t_testName t) = false) ->
  export_to envelope target tests (snd (export_to envelope target tests w)) = (Normal tt, snd (export_to envelope target tests w)).
Proof.
  intros Hnamed Hnone. destruct tests as [| t0 tests].
  - assert (H : forall w', export_to envelope target [] w' = (Normal tt, w'))
      by (intros w'; apply export_to_noop; contradiction).
    now rewrite !H.
  - rewrite (export_to_all _ w) by (auto; discriminate).
    apply export_to_noop. intros t Ht. rewrite file_text_written.
    apply export_file_mentions_fragment; auto.
Qed.

End ExportOnce.

Lemma exportPlaywrightTests_export_to (projectPath : string) (tests : list GeneratedTest) :
  exportPlaywrightTests projectPath tests =
  export_to playwright_file (path_join projectPath PLAYWRIGHT_TARGET) tests.
Proof. reflexivity. Qed.

Lemma exportPythonTests_export_to (projectPath : string) (tests : list GeneratedTest) :
  exportPythonTests projectPath tests =
  export_to python_file (path_join projectPath PYTHON_TARGET) tests.
Proof. reflexivity. Qed.

(** X16. When every fragment's code contains its name and the target
    file mentions none of the names, the export that follows the first one
    changes nothing: it finds every name and writes no file.  For the
    browser and for the interpreter target alike. *)
Theorem first_export_is_stable (projectPath : string) (tests : list GeneratedTest)
        (w : World) :
  (forall t, In t tests -> includes (t_testCode t) (t_testName t) = true) ->
  ((forall t, In t tests ->
      includes (file_text w (path_join projectPath PLAYWRIGHT_TARGET)) (t_testName t)
      = false) ->
   let w1 := snd (exportPlaywrightTests projectPath tests w) in
   exportPlaywrightTests projectPath tests w1 = (Normal tt, w1)) /\
  ((forall t, In t tests ->
      includes (file_text w (path_join projectPath PYTHON_TARGET)) (t_testName t)
      = false) ->
   let w1 := snd (exportPythonTests projectPath tests w) in
   exportPythonTests projectPath tests w1 = (Normal tt, w1)).
Proof.
  intros Hnamed. split; intros Hnone; cbv zeta.
  - rewrite !exportPlaywrightTests_export_to.
    apply export_to_stable; auto using playwright_file_includes_body.
  - rewrite !exportPythonTests_export_to.
    apply export_to_stable; auto using python_file_includes_body.
Qed.

(** X17. When the target files already mention the name of every
    fragment of their kind, [exportTests] changes nothing at all. *)
Theorem export_skips_when_all_names_present (projectPath : string) (w : World) :
  (forall t, In t (r_generatedTests (registry w)) ->
             t_testType t = "playwright" ->
             includes (file_text w (path_join projectPath PLAYWRIGHT_TARGET))
                      (t_testName t) = true) ->
  (forall t, In t (r_generatedTests (registry w)) ->
             t_testType t = "python" ->
             includes (file_text w (path_join projectPath PYTHON_TARGET))
                      (t_testName t) = true) ->
  snd (exportTests projectPath w) = w.
Proof.
  intros Hpw Hpy. unfold exportTests, bind, gets, ret.
  set (pw := filter (fun t => t_testType t === "playwright") (r_generatedTests (registry w))).
  set (py := filter (fun t => t_testType t === "python") (r_generatedTests (registry w))).
  assert (H1 : exportPlaywrightTests projectPath pw w = (Normal tt, w)).
  { rewrite exportPlaywrightTests_export_to. apply export_to_noop.
    intros t Ht. apply filter_In in Ht. destruct Ht as [Hin Hty].
    apply String.eqb_eq in Hty. now apply Hpw. }
  assert (H2 : exportPythonTests projectPath py w = (Normal tt, w)).
  { rewrite exportPythonTests_export_to. apply export_to_noop.
    intros t Ht. apply filter_In in Ht. destruct Ht as [Hin Hty].
    apply String.eqb_eq in Hty. now apply Hpy. }
  destruct (0 <? length pw); [rewrite H1 |]; destruct (0 <? length py);
    try rewrite H2; reflexivity.
Qed.



(* --------------------------------------------------------------------- *)
(** ** Integrity of the registry *)

Lemma owner_of_more (r r' : Registry) (id : string) :
  (forall e, In e (r_errors r) -> In e (r_errors r')) ->
  owner_of r id -> owner_of r' id.
Proof. intros Hsub [e [Hin H]]. exists e. split; auto. Qed.

Lemma registry_sound_grow (r r' : Registry) (e : ErrorRecord) :
  registry_sound r ->
  r_errors r' = (r_errors r ++ [e])%list ->
  (if e_testGenerated e then
     e_status e = "test-generated" /\
     ((exists t,
          r_generatedTests r' = (r_generatedTests r ++ [t])%list /\
          r_patterns r' = r_patterns r /\ t_errorId t = e_id e /\
          includes (t_testCode t) (t_testName t) = true /\
          (t_testType t = "playwright" \/ t_testType t = "python")) \/
      (exists l,
          r_patterns r' = (r_patterns r ++ [l])%list /\
          r_generatedTests r' = r_generatedTests r /\
          l_errorId l = e_id e /\ l_type l = "eslint" /\ l_rule l = "no-undef"))
   else
     e_status e = "new" /\
     r_generatedTests r' = r_generatedTests r /\ r_patterns r' = r_patterns r) ->
  registry_sound r'.
Proof.
  intros [Hg [Hp He]] Herr Hcase.
  assert (Hsub : forall x, In x (r_errors r) -> In x (r_errors r'))
    by (intros x Hx; rewrite Herr; apply in_or_app; now left).
  assert (Hlast : In e (r_errors r'))
    by (rewrite Herr; apply in_or_app; right; now left).
  destruct (e_testGenerated e).
  - destruct Hcase as [Hs [[t [Hgt [Hpt [Hid [Hinc Hty]]]]] | [l [Hpl [Hgl [Hid [Hlt Hlr]]]]]]].
    + repeat split.
      * rewrite Hgt in H. apply in_app_or in H. destruct H as [H | [<- | []]];
          [now apply Hg | exact Hinc].
      * rewrite Hgt in H. apply in_app_or in H. destruct H as [H | [<- | []]];
          [now apply Hg | exact Hty].
      * rewrite Hgt in H. apply in_app_or in H. destruct H as [H | [<- | []]].
        -- eapply owner_of_more; [exact Hsub | now apply Hg].
        -- exists e. auto.
      * rewrite Hpt in H. now apply Hp.
      * rewrite Hpt in H. now apply Hp.
      * rewrite Hpt in H. eapply owner_of_more; [exact Hsub | now apply Hp].
      * intros x Hx Hst. rewrite Herr in Hx. apply in_app_or in Hx.
        destruct Hx as [Hx | [<- | []]].
        -- destruct (He x Hx Hst) as [[t' [Ht' Hid']] | [l' [Hl' Hid']]].
           ++ left. exists t'. split; [rewrite Hgt; apply in_or_app; now left | exact Hid'].
           ++ right. exists l'. split; [now rewrite Hpt | exact Hid'].
        -- left. exists t. split; [rewrite Hgt; apply in_or_app; right; now left | exact Hid].
    + repeat split.
      * rewrite Hgl in H. now apply Hg.
      * rewrite Hgl in H. now apply Hg.
      * rewrite Hgl in H. eapply owner_of_more; [exact Hsub | now apply Hg].
      * rewrite Hpl in H. apply in_app_or in H. destruct H as [H | [<- | []]];
          [now apply Hp | exact Hlt].
      * rewrite Hpl in H. apply in_app_or in H. destruct H as [H | [<- | []]];
          [now apply Hp | exact Hlr].
      * rewrite Hpl in H. apply in_app_or in H. destruct H as [H | [<- | []]].
        -- eapply owner_of_more; [exact Hsub | now apply Hp].
        -- exists e. auto.
      * intros x Hx Hst. rewrite Herr in Hx. apply in_app_or in Hx.
        destruct Hx as [Hx | [<- | []]].
        -- destruct (He x Hx Hst) as [[t' [Ht' Hid']] | [l' [Hl' Hid']]].
           ++ left. exists t'. split; [now rewrite Hgl | exact Hid'].
           ++ right. exists l'. split; [rewrite Hpl; apply in_or_app; now left | exact Hid'].
        -- right. exists l. split; [rewrite Hpl; apply in_or_app; right; now left | exact Hid].
  - destruct Hcase as [Hs [Hgn Hpn]]. repeat split.
    + rewrite Hgn in H. now apply Hg.
    + rewrite Hgn in H. now apply Hg.
    + rewrite Hgn in H. eapply owner_of_more; [exact Hsub | now apply Hg].
    + rewrite Hpn in H. now apply Hp.
    + rewrite Hpn in H. now apply Hp.
    + rewrite Hpn in H. eapply owner_of_more; [exact Hsub | now apply Hp].
    + intros x Hx Hst. rewrite Herr in Hx. apply in_app_or in Hx.
      destruct Hx as [Hx | [<- | []]]; [| congruence].
      rewrite Hgn, Hpn. now apply He.
Qed.


Lemma report_throw_unchanged (msg cat : string) (ctx : Context) (w : World) (x : Exn) :
  fst (reportError msg cat ctx w) = Throw x -> snd (reportError msg cat ctx w) = w.
Proof.
  intros H.
  assert (Hcat : get_category cat = Inherited)
    by (apply (proj1 (report_throws_only_on_inherited msg cat ctx w)); now exists x).
  rewrite reportError_run. unfold detectPattern. now rewrite Hcat.
Qed.

Lemma report_preserves_soundness (msg cat : string) (ctx : Context) (w : World) :
  registry_sound (registry w) ->
  registry_sound (registry (snd (reportError msg cat ctx w))).
Proof.
  intros Hs. destruct (fst (reportError msg cat ctx w)) as [e | x] eqn:Hfst.
  - pose proof (report_persists msg cat ctx w e Hfst) as [_ Herr].
    pose proof (report_links msg cat ctx w e Hfst) as Hlink. cbv zeta in Hlink.
    apply reportError_normal in Hfst.
    destruct Hfst as [dp [b [w2 [_ [_ [He _]]]]]].
    destruct (reported_record_fields msg cat ctx dp w) as [Hst [Htg _]].
    apply (registry_sound_grow (registry w) _ e Hs Herr).
    destruct b; subst e.
    + cbn [mark_generated e_testGenerated e_status e_id] in *.
      split; [reflexivity |].
      destruct Hlink as [[t [Hg [Hp [Hid [Hinc Hty]]]]] | [Hp Hg]].
      * left. exists t. repeat split; auto.
      * right. eexists. split; [exact Hp |]. repeat split; auto.
    + rewrite Htg in *. destruct Hlink as [Hg Hp]. repeat split; auto.
  - now rewrite (report_throw_unchanged msg cat ctx w x Hfst).
Qed.

Lemma report_preserves_disk_soundness (msg cat : string) (ctx : Context) (w : World) :
  registry_sound (registry w) -> disk_sound w ->
  disk_sound (snd (reportError msg cat ctx w)).
Proof.
  intros Hs Hd. pose proof (report_preserves_soundness msg cat ctx w Hs) as Hafter.
  destruct (fst (reportError msg cat ctx w)) as [e | x] eqn:Hfst.
  - pose proof (report_persists msg cat ctx w e Hfst) as [Hdisk _].
    unfold disk_sound. cbv zeta in Hdisk. now rewrite Hdisk.
  - now rewrite (report_throw_unchanged msg cat ctx w x Hfst).
Qed.

Lemma fresh_registry_sound (p t : string) : registry_sound (fresh_registry p t).
Proof. repeat split; contradiction. Qed.

(** X19. In every state the system reaches, in memory and in the
    registry document: each fragment contains its own name, is a browser or
    interpreter fragment and belongs to a 'test-generated' record; each
    lint entry is the 'no-undef' entry of such a record; and each
    'test-generated' record has a fragment or a lint entry. *)
Theorem reachable_registry_is_sound (w : World) :
  reachable w -> registry_sound (registry w) /\ disk_sound w.
Proof.
  induction 1 as [p ms iso rnd | w ms iso rnd _ IH | w p _ IH
                  | w msg cat ctx _ IH | w path _ IH].
  - split; [apply fresh_registry_sound | exact I].
  - exact IH.
  - destruct IH as [Hreg Hdisk]. unfold disk_sound in *.
    cbv beta iota zeta delta [construct loadRegistry bind gets modify ret].
    destruct (disk w) as [| | r] eqn:E; cbn; rewrite ?E; split;
      solve [apply fresh_registry_sound | exact Hdisk | exact I].
  - destruct IH as [Hreg Hdisk]. split.
    + now apply report_preserves_soundness.
    + now apply report_preserves_disk_soundness.
  - destruct IH as [Hreg Hdisk]. split.
    + rewrite exportTests_registry. exact Hreg.
    + unfold disk_sound. rewrite exportTests_disk. exact Hdisk.
Qed.

Lemma after_second_report_reachable : reachable after_second_report.
Proof.
  unfold after_second_report, after_first_export, after_first_report, sample_world.
  apply reach_report, reach_clock, reach_export, reach_report, reach_initial.
Defined.

Lemma reachable_registry_is_sound_witness :
  registry_sound (registry after_second_report).
Proof.
  exact (proj1 (reachable_registry_is_sound after_second_report
                  after_second_report_reachable)).
Defined.


(* --------------------------------------------------------------------- *)
(** ** The guessed category and the smoke-test hook *)




Lemma includes_middle (a p b : string) : includes (a ++ p ++ b) p = true.
Proof. apply includes_spec. now exists a, b. Qed.

(** X24. [captureError] always records the capture.  With a learner and
    a category that is no inherited property name, the learner's registry
    gains one record with that message, category and context; without a
    learner, or with such a category (the exception is dropped), the
    learner's state is unchanged. *)
Theorem capture_learns_unless_category_is_inherited
        (message category : string) (context : Context) (this : Runner) (w : World) :
  let this' := fst (captureError message category context this w) in
  let w' := snd (captureError message category context this w) in
  capturedErrors this' =
    (capturedErrors this ++ [mkCaptured message category context])%list /\
  errorLearner this' = errorLearner this /\
  (errorLearner this = false \/ get_category category = Inherited -> w' = w) /\
  (errorLearner this = true -> get_category category <> Inherited ->
   exists e, r_errors (registry w') = (r_errors (registry w) ++ [e])%list /\
             e_message e = message /\ e_category e = category /\
             e_context e = context).
Proof.
  unfold captureError. cbn [errorLearner capturedErrors].
  destruct (errorLearner this).
  2: { cbn. repeat split; auto. discriminate. }
  destruct (reportError message category context w) as [[e | x] w'] eqn:Hrun;
    cbn [fst snd]; (split; [reflexivity |]); (split; [reflexivity |]).
  - assert (Hfst : fst (reportError message category context w) = Normal e)
      by (now rewrite Hrun).
    split.
    + intros [Hf | Hc]; [discriminate |].
      apply (proj2 (report_throws_only_on_inherited message category context w)) in Hc.
      destruct Hc as [x Hx]. congruence.
    + intros _ _.
      pose proof (report_persists _ _ _ _ _ Hfst) as [_ Herr]. cbv zeta in Herr.
      rewrite Hrun in Herr. cbn [snd] in Herr. exists e. split; [exact Herr |].
      apply reportError_normal in Hfst. destruct Hfst as [dp [b [w2 [_ [_ [-> _]]]]]].
      destruct (reported_record_fields message category context dp w)
        as [_ [_ [Hm [Hc _]]]].
      destruct (reported_record_id message category context dp w) as [_ [Hx _]].
      destruct b; auto.
  - assert (Hfst : fst (reportError message category context w) = Throw x)
      by (now rewrite Hrun).
    pose proof (report_throw_unchanged _ _ _ _ _ Hfst) as Hw. rewrite Hrun in Hw.
    cbn [snd] in Hw. split; [intros _; exact Hw |].
    intros _ Hnot. exfalso. apply Hnot.
    apply (proj1 (report_throws_only_on_inherited message category context w)).
    now exists x.
Qed.


(* --------------------------------------------------------------------- *)
(** ** Records in reachable states, and their summary *)

Lemma reachable_records (P : ErrorRecord -> Prop) :
  (forall msg cat ctx w e, fst (reportError msg cat ctx w) = Normal e -> P e) ->
  forall w, reachable w -> Forall P (r_errors (registry w)) /\ records_on_disk P w.
Proof.
  intros HP w. induction 1 as [p ms iso rnd | w ms iso rnd _ IH | w p _ IH
                               | w msg cat ctx _ IH | w path _ IH].
  - split; [constructor | exact I].
  - exact IH.
  - destruct IH as [Hreg Hdisk]. unfold records_on_disk in *.
    cbv beta iota zeta delta [construct loadRegistry bind gets modify ret].
    destruct (disk w) as [| | r] eqn:E; cbn; rewrite ?E; split;
      solve [constructor | exact Hdisk | exact I].
  - destruct IH as [Hreg Hdisk].
    destruct (fst (reportError msg cat ctx w)) as [e | x] eqn:Hfst.
    + pose proof (report_persists _ _ _ _ _ Hfst) as [Hd Herr]. cbv zeta in Hd, Herr.
      assert (Hall : Forall P (r_errors (registry (snd (reportError msg cat ctx w))))).
      { rewrite Herr. apply Forall_app. split; [exact Hreg |].
        constructor; [now apply (HP msg cat ctx w) | constructor]. }
      split; [exact Hall |]. unfold records_on_disk. now rewrite Hd.
    + rewrite (report_throw_unchanged _ _ _ _ _ Hfst). now split.
  - destruct IH as [Hreg Hdisk]. split.
    + rewrite exportTests_registry. exact Hreg.
    + unfold records_on_disk. rewrite exportTests_disk. exact Hdisk.
Qed.

Lemma reported_category_plain (msg cat : string) (ctx : Context) (w : World)
      (e : ErrorRecord) :
  fst (reportError msg cat ctx w) = Normal e -> category_plain e.
Proof.
  intros Hfst Hc. pose proof Hfst as Hn. apply reportError_normal in Hn.
  destruct Hn as [dp [b [w2 [_ [_ [He _]]]]]].
  destruct (reported_record_fields msg cat ctx dp w) as [_ [_ [_ [Hcat _]]]].
  assert (Hec : e_category e = cat) by (subst e; destruct b; exact Hcat).
  rewrite Hec in Hc.
  apply (proj2 (report_throws_only_on_inherited msg cat ctx w)) in Hc.
  destruct Hc as [x Hx]. congruence.
Qed.

(** X20. In every state the system reaches, each record's pattern is
    what the detector finds for the record's message and category, and no
    record has a category that is an inherited property name. *)
Theorem stored_records_are_well_formed (w : World) :
  reachable w ->
  Forall (fun e => well_formed_record e /\ category_plain e) (r_errors (registry w)).
Proof.
  intros Hr.
  apply (reachable_records (fun e => well_formed_record e /\ category_plain e)) in Hr;
    [exact (proj1 Hr) |].
  intros msg cat ctx w0 e Hfst. split.
  - now apply (reportError_returns_well_formed msg cat ctx w0).
  - now apply (reported_category_plain msg cat ctx w0).
Qed.

Lemma tally_get_set_same (acc : Tallies) (key : string) (v : Tally) :
  tally_get (tally_set acc key v) key = Some v.
Proof.
  induction acc as [| [k old] acc IH]; simpl.
  - now rewrite String.eqb_refl.
  - destruct (String.eqb k key) eqn:E; simpl; rewrite E; [reflexivity | exact IH].
Qed.

Lemma tally_get_set_other (acc : Tallies) (key other : string) (v : Tally) :
  key <> other -> tally_get (tally_set acc key v) other = tally_get acc other.
Proof.
  intros Hne. induction acc as [| [k old] acc IH]; simpl.
  - destruct (String.eqb key other) eqn:E; [apply String.eqb_eq in E; congruence | reflexivity].
  - destruct (String.eqb k key) eqn:E; simpl.
    + apply String.eqb_eq in E. subst k.
      destruct (String.eqb key other) eqn:E2;
        [apply String.eqb_eq in E2; congruence | reflexivity].
    + now rewrite IH.
Qed.

Lemma fold_tally_counts (errors : list ErrorRecord) :
  Forall category_plain errors ->
  forall (acc : Tallies) (seen : list ErrorRecord),
    (forall c, tally_get acc c = tally_of (records_in c seen)) ->
    forall c, tally_get (fold_left tally_step errors acc) c
              = tally_of (records_in c (seen ++ errors)).
Proof.
  induction 1 as [| e errors He _ IH]; intros acc seen Hacc c.
  - simpl. rewrite app_nil_r. apply Hacc.
  - cbn [fold_left].
    replace (seen ++ e :: errors)%list with ((seen ++ [e]) ++ errors)%list
      by (now rewrite <- app_assoc).
    apply IH. clear c. intros c. unfold tally_step.
    assert (Hplain : arr_includes OBJECT_PROTOTYPE_KEYS (e_category e) = false).
    { unfold category_plain, get_category in He.
      destruct (arr_includes OBJECT_PROTOTYPE_KEYS (e_category e)) eqn:E; [| reflexivity].
      destruct (own_property ERROR_CATEGORIES (e_category e)) eqn:Eo; [| congruence].
      exfalso. apply own_property_In in Eo.
      apply arr_includes_In in E. clear - E Eo.
      simpl in Eo. in_cases Eo; injection Eo as Hk _; rewrite <- Hk in E;
        simpl in E; in_cases E; discriminate. }
    assert (Hproto : (e_category e === "__proto__") = false).
    { destruct (e_category e === "__proto__") eqn:E; [| reflexivity].
      apply String.eqb_eq in E. rewrite E in Hplain. discriminate. }
    rewrite Hproto, Hacc, Hplain.
    unfold records_in. rewrite filter_app, length_app. cbn [filter].
    destruct (e_category e === c) eqn:Ec.
    + apply String.eqb_eq in Ec. subst c. rewrite tally_get_set_same.
      fold (records_in (e_category e) seen).
      replace (match tally_of (records_in (e_category e) seen) with
               | Some (Count n) => Count (n + 1)
               | Some Text => Text
               | None => Count 1
               end) with (Count (S (records_in (e_category e) seen))).
      * cbn [length]. rewrite Nat.add_1_r. reflexivity.
      * symmetry. destruct (records_in (e_category e) seen); simpl;
          [reflexivity | f_equal; lia].
    + rewrite tally_get_set_other.
      * rewrite Hacc. unfold records_in. cbn [length]. now rewrite Nat.add_0_r.
      * intros Heq. rewrite Heq, String.eqb_refl in Ec. discriminate.
Qed.

(** X21. In every state the system reaches, [getSummary] reports the
    number of records as [totalErrors] and, for each category, a tally equal
    to the number of records of that category, with no property for a
    category without records. *)
Theorem summary_counts_are_exact (w : World) :
  reachable w ->
  let s := getSummary (registry w) in
  totalErrors s = length (r_errors (registry w)) /\
  forall c, tally_get (byCategory s) c = tally_of (records_in c (r_errors (registry w))).
Proof.
  intros Hr. cbv zeta. split; [reflexivity |].
  apply (reachable_records category_plain) in Hr.
  - intros c. apply (fold_tally_counts _ (proj1 Hr) [] []). reflexivity.
  - intros msg cat ctx w0 e Hfst. now apply (reported_category_plain msg cat ctx w0).
Qed.




(* --------------------------------------------------------------------- *)
(** ** The further properties at work on the sample session *)

Lemma first_record_returned :
  fst (reportError "fooBar is not defined" "js-runtime" [] sample_world)
  = Normal first_record.
Proof. vm_compute. reflexivity. Defined.

Lemma remedy_exists_exactly_for_six_kinds_witness :
  e_status first_record = "test-generated" <->
  exists p, e_detectedPattern first_record = Some p /\
            arr_includes REMEDIED_KINDS (dp_type p) = true.
Proof.
  exact (remedy_exists_exactly_for_six_kinds
           "fooBar is not defined" "js-runtime" [] sample_world first_record
           first_record_returned).
Defined.


Lemma report_links_remedy_to_record_witness :
  exists t,
    r_generatedTests (registry after_first_report)
      = (r_generatedTests (registry sample_world) ++ [t])%list /\
    t_errorId t = e_id first_record.
Proof.
  pose proof (report_links_remedy_to_record
                "fooBar is not defined" "js-runtime" [] sample_world first_record
                first_record_returned) as H.
  cbv zeta in H.
  change (e_testGenerated first_record) with true in H. cbv iota in H.
  destruct H as [[t [Hg [_ [Hid _]]]] | [Hp _]].
  - exists t. split; [exact Hg | exact Hid].
  - vm_compute in Hp. discriminate.
Defined.

Lemma repeated_failure_is_flagged_witness :
  exists ids,
    e_similarErrors
      (returned (fst (reportError "fooBar is not defined" "js-runtime" []
                                  after_first_report))) = Some ids /\
    In (e_id first_record) ids.
Proof.
  destruct (repeated_failure_is_flagged
              "fooBar is not defined" "js-runtime" [] after_first_report first_record
              (returned (fst (reportError "fooBar is not defined" "js-runtime" []
                                          after_first_report))))
    as [ids [H1 [H2 _]]].
  - vm_compute. left. reflexivity.
  - intros x Hx. vm_compute in Hx |- *. exact Hx.
  - vm_compute. reflexivity.
  - exists ids. split; assumption.
Defined.

Lemma contained_query_is_similar_witness :
  let e := record_of_message "err_1" MSG_INIT in
  In e (findSimilarErrors (registry_of [e]) "FOOBAR is not defined").
Proof.
  intros e. apply contained_query_is_similar.
  - intros x Hx. vm_compute in Hx |- *. in_cases Hx; subst x; tauto.
  - left. reflexivity.
Defined.

Lemma three_shared_words_suffice_witness :
  let e := record_of_message "err_1" "connection timeout while database starts" in
  In e (findSimilarErrors (registry_of [e])
          "database connection timeout expired after nine retries on every replica").
Proof.
  intros e.
  apply (three_shared_words_suffice _ _ e "database" "connection" "timeout").
  - repeat constructor; simpl; intuition discriminate.
  - intros x Hx. in_cases Hx; subst x; vm_compute; tauto.
  - left. reflexivity.
Defined.

Lemma unrelated_record_is_not_similar_witness :
  let e := record_of_message "err_1" "disk quota exceeded" in
  ~ In e (findSimilarErrors (registry_of [e]) "syntax error").
Proof.
  intros e. apply unrelated_record_is_not_similar.
  - vm_compute. discriminate.
  - intros x Hx Hy. vm_compute in Hx, Hy. in_cases Hx; subst x; in_cases Hy; discriminate.
Defined.

Lemma first_export_is_stable_witness :
  let tests := r_generatedTests (registry after_first_report) in
  let w1 := snd (exportPlaywrightTests PROJECT_PATH tests after_first_report) in
  exportPlaywrightTests PROJECT_PATH tests w1 = (Normal tt, w1).
Proof.
  intros tests.
  assert (Hnamed : forall t, In t tests ->
                             includes (t_testCode t) (t_testName t) = true).
  { intros t Ht. vm_compute in Ht. destruct Ht as [<- | []]. vm_compute. reflexivity. }
  apply (proj1 (first_export_is_stable PROJECT_PATH tests after_first_report Hnamed)).
  intros t Ht. vm_compute in Ht. destruct Ht as [<- | []]. vm_compute. reflexivity.
Defined.

Lemma export_skips_when_all_names_present_witness :
  snd (exportTests PROJECT_PATH after_first_export) = after_first_export.
Proof.
  apply export_skips_when_all_names_present.
  - intros t Ht _. vm_compute in Ht. destruct Ht as [<- | []]. vm_compute. reflexivity.
  - intros t Ht Hty. vm_compute in Ht. destruct Ht as [<- | []].
    vm_compute in Hty. discriminate.
Defined.

Lemma stored_records_are_well_formed_witness :
  Forall (fun e => well_formed_record e /\ category_plain e)
         (r_errors (registry after_second_report)).
Proof.
  exact (stored_records_are_well_formed after_second_report
           after_second_report_reachable).
Defined.

Lemma summary_counts_are_exact_witness :
  tally_get (byCategory (getSummary (registry after_second_report))) "js-runtime"
  = Some (Count 2).
Proof.
  rewrite (proj2 (summary_counts_are_exact after_second_report
                    after_second_report_reachable) "js-runtime").
  reflexivity.
Defined.



Lemma capture_learns_unless_category_is_inherited_witness :
  snd (captureError "boom" "constructor" [] (mkRunner [] true) sample_world)
  = sample_world.
Proof.
  apply (capture_learns_unless_category_is_inherited
           "boom" "constructor" [] (mkRunner [] true) sample_world).
  right. reflexivity.
Defined.


(* --------------------------------------------------------------------- *)
(** ** Start-up, first export, and the counts of remedies *)

(** X26. A system constructed when the registry document is absent or
    cannot be parsed starts from an empty registry for the project, and the
    first report that returns replaces whatever was on disk by a document
    holding that one record. *)
Theorem unreadable_document_is_replaced
        (projectName msg cat : string) (ctx : Context) (w : World) (e : ErrorRecord) :
  disk w = Absent \/ disk w = Corrupt ->
  let w0 := snd (construct projectName w) in
  fst (construct projectName w) = Normal tt /\
  registry w0 = fresh_registry projectName (now_iso w) /\
  (fst (reportError msg cat ctx w0) = Normal e ->
   exists r, disk (snd (reportError msg cat ctx w0)) = Doc r /\ r_errors r = [e] /\
             r_projectName r = projectName).
Proof.
  intros Hdisk. cbv zeta.
  assert (Hc : construct projectName w
               = (Normal tt, set_registry (fresh_registry projectName (now_iso w)) w)).
  { cbv beta iota zeta delta [construct loadRegistry bind gets modify ret].
    destruct Hdisk as [-> | ->]; reflexivity. }
  rewrite Hc. cbn [fst snd]. split; [reflexivity |]. split; [reflexivity |].
  intros Hfst. pose proof (report_persists _ _ _ _ _ Hfst) as [Hd Herr].
  cbv zeta in Hd, Herr. eexists. split; [exact Hd |]. split; [exact Herr |].
  apply reportError_normal in Hfst. destruct Hfst as [dp [b [w2 [_ [Hgen [_ Hw]]]]]].
  cbv zeta in Hgen. rewrite Hw. destruct b.
  - apply generate_true_effect in Hgen. destruct Hgen as [[t [-> _]] | ->]; reflexivity.
  - apply generate_false_same in Hgen. subst w2. reflexivity.
Qed.

Lemma unreadable_document_is_replaced_witness :
  registry (snd (construct "demo" (set_disk Corrupt sample_world)))
  = fresh_registry "demo" SAMPLE_ISO.
Proof.
  exact (proj1 (proj2 (unreadable_document_is_replaced
                         "demo" "fooBar is not defined" "js-runtime" []
                         (set_disk Corrupt sample_world) first_record
                         (or_intror eq_refl)))).
Defined.









(** An invariant of the registry that a fresh registry has and that a
    report keeps holds in every reachable state, in memory and in the
    registry document. *)
Lemma reachable_invariant (P : Registry -> Prop) :
  (forall p t, P (fresh_registry p t)) ->
  (forall msg cat ctx w, P (registry w) -> P (registry (snd (reportError msg cat ctx w)))) ->
  forall w, reachable w ->
            P (registry w) /\ match disk w with Doc r => P r | Corrupt | Absent => True end.
Proof.
  intros Hfresh Hstep.
  induction 1 as [p ms iso rnd | w ms iso rnd _ IH | w p _ IH
                  | w msg cat ctx _ IH | w path _ IH].
  - split; [apply Hfresh | exact I].
  - exact IH.
  - destruct IH as [Hreg Hdisk].
    cbv beta iota zeta delta [construct loadRegistry bind gets modify ret].
    destruct (disk w) as [| | r] eqn:E; cbn; rewrite ?E; split;
      solve [apply Hfresh | exact Hdisk | exact I].
  - destruct IH as [Hreg Hdisk]. split; [now apply Hstep |].
    destruct (fst (reportError msg cat ctx w)) as [e | x] eqn:Hfst.
    + pose proof (report_persists msg cat ctx w e Hfst) as [Hd _].
      cbv zeta in Hd. rewrite Hd. now apply Hstep.
    + now rewrite (report_throw_unchanged msg cat ctx w x Hfst).
  - destruct IH as [Hreg Hdisk]. rewrite exportTests_registry, exportTests_disk.
    now split.
Qed.

Lemma report_preserves_count (msg cat : string) (ctx : Context) (w : World) :
  remedies_counted (registry w) ->
  remedies_counted (registry (snd (reportError msg cat ctx w))).
Proof.
  intros Hc. destruct (fst (reportError msg cat ctx w)) as [e | x] eqn:Hfst.
  - pose proof (report_persists msg cat ctx w e Hfst) as [_ Herr].
    pose proof (report_links msg cat ctx w e Hfst) as Hlink. cbv zeta in Herr, Hlink.
    apply reportError_normal in Hfst.
    destruct Hfst as [dp [b [w2 [_ [_ [He _]]]]]].
    destruct (reported_record_fields msg cat ctx dp w) as [Hst [Htg _]].
    unfold remedies_counted, remedied in *.
    rewrite Herr, filter_app, length_app, Hc. destruct b; subst e.
    + cbn [mark_generated e_testGenerated e_status e_id] in *.
      destruct Hlink as [[t [Hg [Hp _]]] | [Hp Hg]];
        rewrite Hg, Hp, ?length_app; cbn; lia.
    + rewrite Htg in Hlink. destruct Hlink as [Hg Hp]. rewrite Hg, Hp.
      cbn [filter]. rewrite Hst. cbn. lia.
  - now rewrite (report_throw_unchanged msg cat ctx w x Hfst).
Qed.

(** X28. In every state the system reaches, the number of records whose
    status is 'test-generated' is the summary's [testsGenerated] plus the
    number of lint entries: the summary's figure leaves out exactly the
    records that were remedied by a lint entry.  The registry document
    keeps the same balance. *)
Theorem summary_misses_only_lint_remedies (w : World) :
  reachable w ->
  remedied (r_errors (registry w))
  = testsGenerated (getSummary (registry w)) + length (r_patterns (registry w)) /\
  disk_counted w.
Proof.
  intros Hr.
  apply (reachable_invariant remedies_counted) in Hr.
  - exact Hr.
  - intros p t. reflexivity.
  - intros msg cat ctx w0. apply report_preserves_count.
Qed.

Lemma summary_misses_only_lint_remedies_witness :
  remedied (r_errors (registry after_second_report))
  = testsGenerated (getSummary (registry after_second_report))
    + length (r_patterns (registry after_second_report)).
Proof.
  exact (proj1 (summary_misses_only_lint_remedies after_second_report
                  after_second_report_reachable)).
Defined.
